(** * StorageReader: SD-card JPEG catalogue and block streaming

    A shallow embedding of [src/src/StorageReader.cpp] and
    [src/include/StorageReader.h] (IOTForestCam, part 1), together with
    the properties listed in section 8 of the specification.

    Conventions.
    - C++ unsigned integers are [Z] values; every place where the source
      computes in a fixed width is written with the wrap-around of that
      width ([u8], [u16], [u32]).  The target is the ESP32-S3, where
      [size_t] and [uint32_t] are both 32 bits wide.
    - Member functions take the reader state and return the new one;
      an out-parameter ([ImageInfo&], [BlockReadResult&]) is passed in
      and returned, so that "left untouched" is observable.
    - The Arduino [SD]/[File]/[SPI] objects are not part of the
      repository; module [Arduino] fixes the small model of them that
      the reader is run against. *)

From stdpp Require Import base option list strings gmap.
From Stdlib Require Import ZArith Lia.
From Stdlib.Strings Require Import Byte.
From Stdlib.Strings Require Import Ascii.
From Equations Require Import Equations.

Local Open Scope Z_scope.

(** ** Fixed-width arithmetic *)

Definition u8 (x : Z) : Z := x mod 2 ^ 8.
Definition u16 (x : Z) : Z := x mod 2 ^ 16.
Definition u32 (x : Z) : Z := x mod 2 ^ 32.

Definition byte_val (b : byte) : Z := Z.of_N (Byte.to_N b).

(** ** Tunables of StorageReader.h *)

Definition VSENSOR_BLOCK_SIZE : Z := 512.
Definition VSENSOR_MAX_IMAGES : Z := 32.
Definition VSENSOR_IMAGE_DIR : string := "/images".

(** ** The storage collaborator

    Modelled from the spec: the block storage medium of its section 6
    (open, read, seek, close, directory enumeration, bus init and
    deinit).  The reader takes it from the Arduino [SD], [FS] and [SPI]
    libraries, whose sources are not in the repository. *)

Module Arduino.

(** What a regular file holds: a byte count and the byte at each
    offset.  A function rather than a list, so that files of any
    32-bit size are values of the model. *)
Record FileData := { fsize : Z; fbyte : Z -> byte }.

(** An open [File] handle on a regular file.  A handle that tests
    false in C++ (closed, or a failed [SD.open]) is [None] at the
    use site. *)
Record File := { fdata : FileData; fpos : Z }.

(** What [dir.openNextFile()] hands out for one directory entry:
    the results of [name()], [isDirectory()] and [size()]. *)
Record DirEntry := { name : string; isDirectory : bool; size : Z }.

(** The medium as [begin] and the readers see it: whether
    [SD.begin] succeeds, what [SD.cardType()] answers, the listing
    of the image directory ([None] when it cannot be opened or is no
    directory), and the regular files reachable by path. *)
Record Medium := {
  mount_ok   : bool;
  card_type  : Z;
  images_dir : option (list DirEntry);
  files      : gmap string FileData
}.

Definition CARD_NONE : Z := 0.

(** The bus and driver that [begin] powers up and [end] releases. *)
Record Bus := { spi_active : bool; sd_active : bool }.

Definition file_of_bytes (l : list byte) : FileData :=
  {| fsize := Z.of_nat (length l);
     fbyte := fun i => nth (Z.to_nat i) l "000"%byte |}.

(** [SD.open(path, FILE_READ)] *)
Definition SD_open (sd : Medium) (path : string) : option File :=
  match files sd !! path with
  | Some d => Some {| fdata := d; fpos := 0 |}
  | None => None
  end.

Definition position (f : File) : Z := fpos f.

(** [available()]: bytes between the position and the end. *)
Definition available (f : File) : Z := Z.max 0 (fsize (fdata f) - fpos f).

(** [seek(off)]: moves the position; refused beyond the end. *)
Definition seek (f : File) (off : Z) : option File :=
  if Z.leb off (fsize (fdata f))
  then Some {| fdata := fdata f; fpos := off |}
  else None.

(** [read(buf, n)]: the bytes delivered (at most [n], at most what
    is available) and the handle after the read. *)
Definition read (f : File) (n : Z) : list byte * File :=
  let k := Z.to_nat (Z.min n (available f)) in
  (map (fun i => fbyte (fdata f) (fpos f + Z.of_nat i)) (seq 0 k),
   {| fdata := fdata f; fpos := fpos f + Z.of_nat k |}).

(** [String::toLowerCase] (ASCII letters only). *)
Definition lower_ascii (c : Ascii.ascii) : Ascii.ascii :=
  let n := Ascii.N_of_ascii c in
  if ((65 <=? n) && (n <=? 90))%N then Ascii.ascii_of_N (n + 32) else c.

Fixpoint toLowerCase (s : string) : string :=
  match s with
  | EmptyString => EmptyString
  | String c r => String (lower_ascii c) (toLowerCase r)
  end.

(** [String::endsWith] *)
Definition endsWith (s suffix : string) : bool :=
  if (String.length s <? String.length suffix)%nat then false
  else String.eqb
         (String.substring (String.length s - String.length suffix)
                           (String.length suffix) s)
         suffix.

End Arduino.
Import Arduino.

(** ** Data types of StorageReader.h *)

Record ImageInfo := {
  filename    : string;
  fileSize    : Z;
  totalBlocks : Z;
  checksum    : Z
}.

Record BlockReadResult := {
  data       : list byte;
  length     : Z;
  blockIndex : Z;
  isLast     : bool
}.

Record StorageReader := {
  _mounted      : bool;
  _imageCount   : Z;
  _catalogue    : list ImageInfo;
  _currentFile  : option File;
  _currentIndex : Z;
  _currentBlock : Z
}.

Definition ImageInfo_zero : ImageInfo :=
  {| filename := ""; fileSize := 0; totalBlocks := 0; checksum := 0 |}.

(** [_catalogue[i]] *)
Definition catalogue_at (cat : list ImageInfo) (i : Z) : ImageInfo :=
  default ImageInfo_zero (cat !! Z.to_nat i).

(** The constructor.  It sets the four members of its initialiser
    list and leaves the array [_catalogue] as it finds it: [slots] is
    what the storage of the object holds in those
    [VSENSOR_MAX_IMAGES] places. *)
Definition StorageReader_init (slots : list ImageInfo) : StorageReader :=
  {| _mounted := false;
     _imageCount := 0;
     _catalogue := slots;
     _currentFile := None;
     _currentIndex := 255;
     _currentBlock := 0 |}.

(** The reader objects of the two programs ([sensor], [storage]) are
    globals: C++ zero-fills an object of static storage duration before
    its constructor runs, so for them the array starts zeroed. *)
Definition StorageReader_new : StorageReader :=
  StorageReader_init (replicate (Z.to_nat VSENSOR_MAX_IMAGES) ImageInfo_zero).

(** ** Member functions *)

Definition set_file (s : StorageReader) (f : option File) : StorageReader :=
  {| _mounted := _mounted s; _imageCount := _imageCount s;
     _catalogue := _catalogue s; _currentFile := f;
     _currentIndex := _currentIndex s; _currentBlock := _currentBlock s |}.

Definition set_block (s : StorageReader) (b : Z) : StorageReader :=
  {| _mounted := _mounted s; _imageCount := _imageCount s;
     _catalogue := _catalogue s; _currentFile := _currentFile s;
     _currentIndex := _currentIndex s; _currentBlock := b |}.

Definition imageCount (s : StorageReader) : Z := _imageCount s.

Definition isImageOpen (s : StorageReader) : bool :=
  bool_decide (is_Some (_currentFile s)).

Definition closeImage (s : StorageReader) : StorageReader :=
  match _currentFile s with
  | Some _ =>
      {| _mounted := _mounted s; _imageCount := _imageCount s;
         _catalogue := _catalogue s; _currentFile := None;
         _currentIndex := 255; _currentBlock := 0 |}
  | None => s
  end.

Definition getImageInfo (s : StorageReader) (index : Z) (info : ImageInfo)
  : bool * ImageInfo :=
  if Z.leb (_imageCount s) index then (false, info)
  else (true, catalogue_at (_catalogue s) index).

Definition openImage (sd : Medium) (s : StorageReader) (index : Z)
  : bool * StorageReader :=
  if negb (_mounted s) || Z.leb (_imageCount s) index then (false, s)
  else
    let s1 := closeImage s in
    match SD_open sd (filename (catalogue_at (_catalogue s1) index)) with
    | None => (false, set_file s1 None)
    | Some f =>
        (true,
         {| _mounted := _mounted s1; _imageCount := _imageCount s1;
            _catalogue := _catalogue s1; _currentFile := Some f;
            _currentIndex := index; _currentBlock := 0 |})
    end.

(** [_readAtOffset], on the open handle [f] (the member [_currentFile]). *)
Definition _readAtOffset (f : File) (byteOffset blockIdx totalBlocks : Z)
    (result : BlockReadResult) : bool * BlockReadResult * File :=
  match (if Z.eqb (position f) byteOffset then Some f else seek f byteOffset) with
  | None => (false, result, f)
  | Some f1 =>
      let '(bytes, f2) := read f1 VSENSOR_BLOCK_SIZE in
      let bytesRead := Z.of_nat (List.length bytes) in
      let written := bytes ++ drop (List.length bytes) (data result) in
      if Z.eqb bytesRead 0
      then (false,
            {| data := written; length := length result;
               blockIndex := blockIndex result; isLast := isLast result |},
            f2)
      else (true,
            {| data := written; length := bytesRead;
               blockIndex := blockIdx;
               isLast := Z.eqb blockIdx (u32 (totalBlocks - 1)) |},
            f2)
  end.

Definition readNextBlock (s : StorageReader) (result : BlockReadResult)
  : bool * BlockReadResult * StorageReader :=
  match _currentFile s with
  | None => (false, result, s)
  | Some f =>
      let total := totalBlocks (catalogue_at (_catalogue s) (_currentIndex s)) in
      if Z.leb total (_currentBlock s) then (false, result, s)
      else
        let byteOffset := u32 (_currentBlock s * VSENSOR_BLOCK_SIZE) in
        let '(ok, r, f') := _readAtOffset f byteOffset (_currentBlock s) total result in
        if ok
        then (true, r, set_block (set_file s (Some f')) (u32 (_currentBlock s + 1)))
        else (false, r, set_file s (Some f'))
  end.

Definition readBlock (s : StorageReader) (blockIdx : Z) (result : BlockReadResult)
  : bool * BlockReadResult * StorageReader :=
  match _currentFile s with
  | None => (false, result, s)
  | Some f =>
      let total := totalBlocks (catalogue_at (_catalogue s) (_currentIndex s)) in
      if Z.leb total blockIdx then (false, result, s)
      else
        let byteOffset := u32 (blockIdx * VSENSOR_BLOCK_SIZE) in
        match seek f byteOffset with
        | None => (false, result, s)
        | Some f1 =>
            let '(ok, r, f') := _readAtOffset f1 byteOffset blockIdx total result in
            (ok, r, set_file s (Some f'))
        end
  end.

(** *** Checksum *)

(** One pass of the inner [for] loop body: both sums are [uint16_t],
    the additions are done in [int] and reduced mod 255. *)
Definition fletcher_step (sums : Z * Z) (b : byte) : Z * Z :=
  let sum1 := u16 ((fst sums + byte_val b) mod 255) in
  let sum2 := u16 ((snd sums + sum1) mod 255) in
  (sum1, sum2).

(** The [while (f.available())] loop: each round reads one buffer of
    [VSENSOR_BLOCK_SIZE] bytes and folds it into the sums.  A round is
    entered only with bytes available, so it moves the position. *)
Equations? checksum_loop (f : File) (sums : Z * Z) : Z * Z
  by wf (Z.to_nat (available f)) lt :=
  checksum_loop f sums with decide (available f = 0) := {
    | left _ := sums
    | right _ :=
        checksum_loop (snd (read f VSENSOR_BLOCK_SIZE))
                      (fold_left fletcher_step (fst (read f VSENSOR_BLOCK_SIZE)) sums) }.
Proof.
  unfold available in *; simpl. unfold VSENSOR_BLOCK_SIZE. lia.
Qed.

Definition computeChecksum (sd : Medium) (s : StorageReader) (index : Z) : Z :=
  if negb (_mounted s) || Z.leb (_imageCount s) index then 0
  else
    match SD_open sd (filename (catalogue_at (_catalogue s) index)) with
    | None => 0
    | Some f =>
        let '(sum1, sum2) := checksum_loop f (0, 0) in
        u16 (Z.lor (Z.shiftl sum2 8) sum1)
    end.

(** *** Directory scan *)

Definition starts_with_dot (n : string) : bool :=
  match n with
  | String c _ => Ascii.eqb c "."%char
  | EmptyString => false
  end.

(** [snprintf(img.filename, sizeof(img.filename), "%s/%s", dir, name)]:
    at most 63 characters are kept. *)
Definition make_filename (n : string) : string :=
  String.substring 0 63 (VSENSOR_IMAGE_DIR +:+ "/" +:+ n).

(** The catalogue entry written for a directory entry [e]:
    [entry.size()] is a [size_t], and the block count is computed in
    32-bit unsigned arithmetic. *)
Definition make_entry (e : DirEntry) : ImageInfo :=
  let fs := u32 (size e) in
  {| filename := make_filename (name e);
     fileSize := fs;
     totalBlocks := u32 (u32 (fs + VSENSOR_BLOCK_SIZE) - 1) / VSENSOR_BLOCK_SIZE;
     checksum := 0 |}.

(** The body of the scan loop from "Populate catalogue entry" on. *)
Definition add_entry (s : StorageReader) (e : DirEntry) : StorageReader :=
  {| _mounted := _mounted s;
     _imageCount := u8 (_imageCount s + 1);
     _catalogue := <[Z.to_nat (_imageCount s) := make_entry e]> (_catalogue s);
     _currentFile := _currentFile s;
     _currentIndex := _currentIndex s;
     _currentBlock := _currentBlock s |}.

(** Does the loop body reach "Populate catalogue entry" for [e]? *)
Definition accepted (e : DirEntry) : bool :=
  if isDirectory e || starts_with_dot (name e) then false
  else
    let nameStr := toLowerCase (name e) in
    if negb (endsWith nameStr ".jpg") && negb (endsWith nameStr ".jpeg")
    then false
    else true.

(** [while (_imageCount < VSENSOR_MAX_IMAGES)] over the entries that
    [openNextFile] still has to deliver. *)
Fixpoint scan_loop (pending : list DirEntry) (s : StorageReader) : StorageReader :=
  if Z.ltb (_imageCount s) VSENSOR_MAX_IMAGES then
    match pending with
    | [] => s
    | e :: rest =>
        if accepted e then scan_loop rest (add_entry s e)
        else scan_loop rest s
    end
  else s.

Definition _scanDirectory (sd : Medium) (s : StorageReader) : bool * StorageReader :=
  let s0 :=
    {| _mounted := _mounted s; _imageCount := 0;
       _catalogue := _catalogue s; _currentFile := _currentFile s;
       _currentIndex := _currentIndex s; _currentBlock := _currentBlock s |} in
  match images_dir sd with
  | None => (false, s0)
  | Some entries =>
      let s1 := scan_loop entries s0 in
      (Z.ltb 0 (_imageCount s1), s1)
  end.

(** *** Lifecycle *)

Definition set_mounted (s : StorageReader) (m : bool) : StorageReader :=
  {| _mounted := m; _imageCount := _imageCount s;
     _catalogue := _catalogue s; _currentFile := _currentFile s;
     _currentIndex := _currentIndex s; _currentBlock := _currentBlock s |}.

Definition begin (sd : Medium) (bus : Bus) (s : StorageReader)
  : bool * Bus * StorageReader :=
  if _mounted s then (true, bus, s)
  else if negb (mount_ok sd) then
    (false, {| spi_active := false; sd_active := sd_active bus |}, s)
  else if Z.eqb (card_type sd) CARD_NONE then
    (false, {| spi_active := false; sd_active := false |}, s)
  else
    let '(ok, s') := _scanDirectory sd (set_mounted s true) in
    (ok, {| spi_active := true; sd_active := true |}, s').

(** [StorageReader::end] *)
Definition end_ (bus : Bus) (s : StorageReader) : Bus * StorageReader :=
  let s1 := closeImage s in
  if _mounted s1 then
    ({| spi_active := false; sd_active := false |},
     {| _mounted := false; _imageCount := 0;
        _catalogue := _catalogue s1; _currentFile := _currentFile s1;
        _currentIndex := _currentIndex s1; _currentBlock := _currentBlock s1 |})
  else (bus, s1).

(** ** Definitions used to state the properties *)

(** *** Reader states that the member functions produce

    The catalogue is an array of [VSENSOR_MAX_IMAGES] slots of which
    the first [_imageCount] are in use; an open handle never points
    past the end of its file. *)

Definition file_ok (f : File) : Prop :=
  0 <= fpos f <= fsize (fdata f).

Definition reader_ok (s : StorageReader) : Prop :=
  List.length (_catalogue s) = Z.to_nat VSENSOR_MAX_IMAGES
  /\ 0 <= _imageCount s <= VSENSOR_MAX_IMAGES
  /\ (forall f, _currentFile s = Some f -> file_ok f).

(** No file of the medium has a negative size. *)
Definition medium_ok (sd : Medium) : Prop :=
  forall (path : string) (d : FileData), files sd !! path = Some d -> 0 <= fsize d.

(** *** What a call hands back *)

(** What a caller of [readNextBlock] gets back: the return value and
    the out-parameter. *)
Definition returned (r : bool * BlockReadResult * StorageReader)
  : bool * BlockReadResult := fst r.

(** The cursor of an open stream has reached the block count. *)
Definition at_end_of_data (s : StorageReader) : Prop :=
  is_Some (_currentFile s)
  /\ totalBlocks (catalogue_at (_catalogue s) (_currentIndex s)) <= _currentBlock s.

(** The part of [_readAtOffset] after the handle has been positioned. *)
Definition deliver (f1 : File) (blockIdx total : Z) (result : BlockReadResult)
  : bool * BlockReadResult * File :=
  let '(bytes, f2) := read f1 VSENSOR_BLOCK_SIZE in
  let bytesRead := Z.of_nat (List.length bytes) in
  let written := bytes ++ drop (List.length bytes) (data result) in
  if Z.eqb bytesRead 0
  then (false,
        {| data := written; length := length result;
           blockIndex := blockIndex result; isLast := isLast result |},
        f2)
  else (true,
        {| data := written; length := bytesRead;
           blockIndex := blockIdx;
           isLast := Z.eqb blockIdx (u32 (total - 1)) |},
        f2).

(** The bytes of a result that a read has filled in. *)
Definition payload (r : BlockReadResult) : list byte :=
  take (Z.to_nat (length r)) (data r).

(** *** Scan filter, in the words of the specification *)

(** Following the specification's wording: the extension of a name is
    what it has from its last ['.'] on, and a name is an image name when
    its extension, case ignored, is in the allowed set. *)
Fixpoint extension (n : string) : option string :=
  match n with
  | EmptyString => None
  | String c r =>
      match extension r with
      | Some x => Some x
      | None => if Ascii.eqb c "."%char then Some n else None
      end
  end.

Definition image_extensions : list string := [".jpg"; ".jpeg"].

Definition has_image_extension (n : string) : bool :=
  match extension n with
  | Some x => existsb (String.eqb (toLowerCase x)) image_extensions
  | None => false
  end.

Definition eligible (e : DirEntry) : bool :=
  negb (isDirectory e) && negb (starts_with_dot (name e))
  && has_image_extension (name e).

(** *** Checksum, in the words of the specification *)

(** The [n] bytes of [d] from offset [pos] on. *)
Definition bytes_from (d : FileData) (pos : Z) (n : nat) : list byte :=
  map (fun i => fbyte d (pos + Z.of_nat i)) (seq 0 n).

(** The whole content of a file, and what a handle has not read yet. *)
Definition file_bytes (d : FileData) : list byte :=
  bytes_from d 0 (Z.to_nat (fsize d)).

Definition remaining (f : File) : list byte :=
  bytes_from (fdata f) (fpos f) (Z.to_nat (available f)).

(** Following the specification's wording: [sum1] accumulates the byte
    values mod 255, [sum2] accumulates [sum1] mod 255 after each byte,
    and the result has [sum2] as its high byte and [sum1] as its low
    byte. *)
Definition fletcher16_sums (bs : list byte) : Z * Z :=
  fold_left
    (fun sums b =>
       let sum1 := (fst sums + byte_val b) mod 255 in
       (sum1, (snd sums + sum1) mod 255))
    bs (0, 0).

Definition fletcher16 (bs : list byte) : Z :=
  snd (fletcher16_sums bs) * 2 ^ 8 + fst (fletcher16_sums bs).

(** *** Streaming a whole file *)

(** The streaming loop of the demo program,
    [while (sensor.readNextBlock(block)) totalBytesRead += block.length],
    run for at most [rounds] calls: the lengths handed back by the
    successful calls and the reader after the last call made. *)
Fixpoint read_all (rounds : nat) (s : StorageReader) (r : BlockReadResult)
  : list Z * StorageReader :=
  match rounds with
  | O => ([], s)
  | S n =>
      match readNextBlock s r with
      | (true, r1, s1) =>
          let '(lens, s') := read_all n s1 r1 in (length r1 :: lens, s')
      | (false, _, s1) => ([], s1)
      end
  end.

Definition total_length (lens : list Z) : Z := fold_right Z.add 0 lens.

(** ** Example media *)

Module Examples.

Definition bus_off : Bus := {| spi_active := false; sd_active := false |}.

Definition abc_bytes : list byte := ["001"; "002"; "003"]%byte.

(** The directory of the filter example of the specification. *)
Definition filter_sd : Medium :=
  {| mount_ok := true; card_type := 2;
     images_dir :=
       Some [ {| name := "a.JPG"; isDirectory := false; size := 3 |};
              {| name := "b.png"; isDirectory := false; size := 10 |};
              {| name := ".hidden.jpg"; isDirectory := false; size := 10 |};
              {| name := "c.jpg"; isDirectory := true; size := 0 |} ];
     files := {[ "/images/a.JPG" := file_of_bytes abc_bytes ]} |}.

(** A card whose image directory holds nothing eligible. *)
Definition empty_sd : Medium :=
  {| mount_ok := true; card_type := 2;
     images_dir := Some [ {| name := "notes.txt"; isDirectory := false; size := 7 |} ];
     files := ∅ |}.

Definition mounted_reader : StorageReader :=
  snd (begin filter_sd bus_off StorageReader_new).

Definition open_reader : StorageReader :=
  snd (openImage filter_sd mounted_reader 0).

Definition blank : BlockReadResult :=
  {| data := replicate (Z.to_nat VSENSOR_BLOCK_SIZE) "000"%byte;
     length := 0; blockIndex := 0; isLast := false |}.

(** The reader after the single block of [a.JPG] has been streamed. *)
Definition drained_reader : StorageReader :=
  snd (readNextBlock open_reader blank).

Fixpoint numbered (n : nat) : string :=
  match n with
  | O => "img"
  | S k => numbered k +:+ "_"
  end.

Definition jpeg (n : nat) : DirEntry :=
  {| name := numbered n +:+ ".jpg"; isDirectory := false; size := 1000 |}.

(** Forty eligible files. *)
Definition crowded_sd : Medium :=
  {| mount_ok := true; card_type := 2;
     images_dir := Some (map jpeg (seq 0 40));
     files := ∅ |}.

(** One file of the largest size a FAT32 volume can hold. *)
Definition huge_sd : Medium :=
  {| mount_ok := true; card_type := 2;
     images_dir := Some [ {| name := "big.jpg"; isDirectory := false;
                             size := 4294967295 |} ];
     files := {[ "/images/big.jpg" :=
                   {| fsize := 4294967295; fbyte := fun _ => "000"%byte |} ]} |}.

End Examples.

(** ** Further definitions: whole streams, reachable readers, the demo programs *)

(** The streaming loop again, keeping every block handed back. *)
Fixpoint read_blocks (rounds : nat) (s : StorageReader) (r : BlockReadResult)
  : list BlockReadResult * StorageReader :=
  match rounds with
  | O => ([], s)
  | S n =>
      match readNextBlock s r with
      | (true, r1, s1) =>
          let '(blocks, s') := read_blocks n s1 r1 in (r1 :: blocks, s')
      | (false, _, s1) => ([], s1)
      end
  end.

(** Block [k] of a file: its bytes from [k * VSENSOR_BLOCK_SIZE] on, at
    most [VSENSOR_BLOCK_SIZE] of them. *)
Definition chunk (d : FileData) (k : Z) : list byte :=
  bytes_from d (k * VSENSOR_BLOCK_SIZE)
    (Z.to_nat (Z.min VSENSOR_BLOCK_SIZE (fsize d - k * VSENSOR_BLOCK_SIZE))).

(** What holds of the block with number [blockIndex b] of a stream over
    file [d] catalogued with [total] blocks. *)
Definition block_of (d : FileData) (total : Z) (b : BlockReadResult) : Prop :=
  payload b = chunk d (blockIndex b)
  /\ length b = Z.min VSENSOR_BLOCK_SIZE (fsize d - blockIndex b * VSENSOR_BLOCK_SIZE)
  /\ (blockIndex b < total - 1 -> length b = VSENSOR_BLOCK_SIZE)
  /\ isLast b = Z.eqb (blockIndex b) (total - 1).

(** *** Reachable readers and what holds of them *)

(** What every slot of the catalogue array satisfies. *)
Definition entry_ok (e : ImageInfo) : Prop :=
  0 <= fileSize e < 2 ^ 32
  /\ 0 <= totalBlocks e <= 8388607
  /\ checksum e = 0
  /\ (String.length (filename e) <= 63)%nat.

(** The stream members agree with each other: an open handle goes with
    a mounted reader, an index of a catalogued image and a cursor that
    has not passed the block count; a closed one with the sentinel index
    and a cursor of 0. *)
Definition stream_ok (s : StorageReader) : Prop :=
  match _currentFile s with
  | Some _ =>
      _mounted s = true
      /\ 0 <= _currentIndex s < _imageCount s
      /\ 0 <= _currentBlock s
           <= totalBlocks (catalogue_at (_catalogue s) (_currentIndex s))
  | None => _currentIndex s = 255 /\ _currentBlock s = 0
  end.

Definition reader_inv (s : StorageReader) : Prop :=
  reader_ok s
  /\ Forall entry_ok (_catalogue s)
  /\ stream_ok s
  /\ (_mounted s = false -> _imageCount s = 0).

(** The same with the entry condition on the counted entries only: the
    slots from [_imageCount] on hold whatever the storage of the object
    held, or what an earlier scan left there. *)
Definition reader_sound (s : StorageReader) : Prop :=
  reader_ok s
  /\ Forall entry_ok (take (Z.to_nat (_imageCount s)) (_catalogue s))
  /\ stream_ok s
  /\ (_mounted s = false -> _imageCount s = 0).

(** The readers a program can get to: a constructed one, whatever its
    storage held in the [VSENSOR_MAX_IMAGES] places of the array, and
    what any public member function makes of a reader it got to.
    Arguments are in the range of their C++ types; the card may differ
    from call to call. *)
Inductive reachable : StorageReader -> Prop :=
| reach_init slots :
    List.length slots = Z.to_nat VSENSOR_MAX_IMAGES ->
    reachable (StorageReader_init slots)
| reach_begin sd bus s :
    reachable s -> reachable (snd (begin sd bus s))
| reach_end bus s :
    reachable s -> reachable (snd (end_ bus s))
| reach_openImage sd s index :
    medium_ok sd -> 0 <= index < 2 ^ 8 ->
    reachable s -> reachable (snd (openImage sd s index))
| reach_closeImage s :
    reachable s -> reachable (closeImage s)
| reach_readNextBlock s r :
    reachable s -> reachable (snd (readNextBlock s r))
| reach_readBlock s k r :
    0 <= k < 2 ^ 32 ->
    reachable s -> reachable (snd (readBlock s k r)).

(** *** The capture cycle of the main program ([src/unnamed/part_000]) *)

Module Demo.

(** Where a capture cycle ended, with what it printed about the image:
    the catalogue entry, the checksum, the byte count of the streaming
    loop, and whether block 0 was read again (and how that went). *)
Inductive Report :=
| InitFailed
| NoImages
| InfoFailed
| OpenFailed (info : ImageInfo) (checksum : Z)
| Streamed (info : ImageInfo) (checksum totalBytesRead : Z) (reread : option bool).

Record Cycle := {
  captureIndex_after : Z;
  bus_after : Bus;
  sensor_after : StorageReader;
  block_after : BlockReadResult;
  report : Report
}.

(** [while (sensor.readNextBlock(block)) totalBytesRead += block.length;]
    with [totalBytesRead] a [uint32_t]; [None] when [fuel] calls were
    not enough to see the loop end. *)
Fixpoint stream_loop (fuel : nat) (sensor : StorageReader) (block : BlockReadResult)
    (totalBytesRead : Z) : option (Z * BlockReadResult * StorageReader) :=
  match fuel with
  | O => None
  | S n =>
      match readNextBlock sensor block with
      | (true, block1, sensor1) =>
          stream_loop n sensor1 block1 (u32 (totalBytesRead + length block1))
      | (false, block1, sensor1) => Some (totalBytesRead, block1, sensor1)
      end
  end.

(** [simulateCaptureCycle]: [captureIndex] is the [uint8_t] kept in RTC
    memory, [info] and [block] are the contents of the two
    uninitialised locals.  Serial output and timing do not feed back
    into the control flow; what is printed about the image is kept in
    the report. *)
Definition simulateCaptureCycle (fuel : nat) (sd : Medium) (captureIndex : Z)
    (bus : Bus) (sensor : StorageReader) (info : ImageInfo) (block : BlockReadResult)
  : option Cycle :=
  let '(ok, bus1, sensor1) := begin sd bus sensor in
  if negb ok then
    Some {| captureIndex_after := captureIndex; bus_after := bus1;
            sensor_after := sensor1; block_after := block; report := InitFailed |}
  else
    let count := imageCount sensor1 in
    if Z.eqb count 0 then
      let '(bus2, sensor2) := end_ bus1 sensor1 in
      Some {| captureIndex_after := captureIndex; bus_after := bus2;
              sensor_after := sensor2; block_after := block; report := NoImages |}
    else
      let idx := u8 (captureIndex mod count) in
      let captureIndex1 := u8 (captureIndex + 1) in
      let '(got, info1) := getImageInfo sensor1 idx info in
      if negb got then
        let '(bus2, sensor2) := end_ bus1 sensor1 in
        Some {| captureIndex_after := captureIndex1; bus_after := bus2;
                sensor_after := sensor2; block_after := block; report := InfoFailed |}
      else
        let checksum := computeChecksum sd sensor1 idx in
        let '(opened, sensor2) := openImage sd sensor1 idx in
        if negb opened then
          let '(bus3, sensor3) := end_ bus1 sensor2 in
          Some {| captureIndex_after := captureIndex1; bus_after := bus3;
                  sensor_after := sensor3; block_after := block;
                  report := OpenFailed info1 checksum |}
        else
          match stream_loop fuel sensor2 block 0 with
          | None => None
          | Some (totalBytesRead, block1, sensor3) =>
              let '(reread, block2, sensor4) :=
                if Z.ltb 1 (totalBlocks info1)
                then let '(ok0, b, s4) := readBlock sensor3 0 block1 in (Some ok0, b, s4)
                else (None, block1, sensor3) in
              let '(bus5, sensor5) := end_ bus1 (closeImage sensor4) in
              Some {| captureIndex_after := captureIndex1; bus_after := bus5;
                      sensor_after := sensor5; block_after := block2;
                      report := Streamed info1 checksum totalBytesRead reread |}
          end.

End Demo.

(** *** The start-up screen of the display test program
        ([src/src/main.cpp]) *)

Module DisplayTest.

(** The last screen that [setup] puts on the display. *)
Inductive Screen :=
| SdMountFailed
| SdCardOk (images : Z)
| FirstImage (info : ImageInfo)
| NoImagesFound.

(** [setup], from [storage.begin()] on; [info] is the content of the
    uninitialised local. *)
Definition setup (sd : Medium) (bus : Bus) (storage : StorageReader) (info : ImageInfo)
  : Screen * Bus * StorageReader :=
  let '(ok, bus1, storage1) := begin sd bus storage in
  if negb ok then (SdMountFailed, bus1, storage1)
  else
    if Z.ltb 0 (imageCount storage1) then
      let '(got, info1) := getImageInfo storage1 0 info in
      if got then (FirstImage info1, bus1, storage1)
      else (SdCardOk (imageCount storage1), bus1, storage1)
    else (NoImagesFound, bus1, storage1).

End DisplayTest.

(** *** More example media *)

Module MoreExamples.

(** A file of 1030 bytes, byte [i] being [i mod 251]. *)
Definition ramp : FileData :=
  {| fsize := 1030;
     fbyte := fun i => default "000"%byte (Byte.of_N (Z.to_N (i mod 251))) |}.

Definition two_entries : list DirEntry :=
  [ {| name := "a.JPG"; isDirectory := false; size := 3 |};
    {| name := "ramp.jpeg"; isDirectory := false; size := 1030 |} ].

(** A card with two images; the second takes three blocks. *)
Definition two_sd : Medium :=
  {| mount_ok := true; card_type := 2;
     images_dir := Some two_entries;
     files := {[ "/images/a.JPG" := file_of_bytes Examples.abc_bytes;
                 "/images/ramp.jpeg" := ramp ]} |}.

Definition two_reader : StorageReader :=
  snd (begin two_sd Examples.bus_off StorageReader_new).

Definition ramp_reader : StorageReader :=
  snd (openImage two_sd two_reader 1).

(** A card that does not mount, and one with no image directory. *)
Definition dead_sd : Medium :=
  {| mount_ok := false; card_type := 0; images_dir := None; files := ∅ |}.

Definition bare_sd : Medium :=
  {| mount_ok := true; card_type := 2; images_dir := None; files := ∅ |}.

Definition bus_on : Bus := {| spi_active := true; sd_active := true |}.

(** An array of slots that were never written: every field holds
    [0xAAAAAAAA], the path a stray character. *)
Definition stale_slots : list ImageInfo :=
  replicate (Z.to_nat VSENSOR_MAX_IMAGES)
    {| filename := "?"; fileSize := 2863311530;
       totalBlocks := 2863311530; checksum := 2863311530 |}.

(** A reader constructed over such an array, mounted on the card with
    two images, with the second image open. *)
Definition stale_reader : StorageReader :=
  snd (openImage two_sd
         (snd (begin two_sd Examples.bus_off (StorageReader_init stale_slots))) 1).

(** A card whose directory reports 1000 bytes for a file that holds
    three, and the reader after the first block of it has been read:
    the cursor is at block 1 of 2, and the file has no byte there. *)
Definition cut_short_sd : Medium :=
  {| mount_ok := true; card_type := 2;
     images_dir := Some [ {| name := "cut.jpg"; isDirectory := false; size := 1000 |} ];
     files := {[ "/images/cut.jpg" := file_of_bytes Examples.abc_bytes ]} |}.

Definition cut_short_reader : StorageReader :=
  snd (readNextBlock
         (snd (openImage cut_short_sd
                 (snd (begin cut_short_sd Examples.bus_off StorageReader_new)) 0))
         Examples.blank).

(** Two files that differ in a [0x00] byte against a [0xFF] byte. *)
Definition twins_sd : Medium :=
  {| mount_ok := true; card_type := 2;
     images_dir :=
       Some [ {| name := "z.jpg"; isDirectory := false; size := 2 |};
              {| name := "f.jpg"; isDirectory := false; size := 2 |} ];
     files := {[ "/images/z.jpg" := file_of_bytes ["000"; "001"]%byte;
                 "/images/f.jpg" := file_of_bytes ["255"; "001"]%byte ]} |}.

Definition twins_reader : StorageReader :=
  snd (begin twins_sd Examples.bus_off StorageReader_new).

End MoreExamples.

(** *** Power *)

(** The bus is powered exactly while the reader is mounted. *)
Definition power_ok (bus : Bus) (s : StorageReader) : Prop :=
  spi_active bus = _mounted s /\ sd_active bus = _mounted s.

(** *** Proof steps *)

(** Closes the three remaining parts of [reader_inv] for a call that
    handed the reader back as it was. *)
Ltac unchanged Hun :=
  split; [assumption |]; split; [assumption |];
  cbn [snd]; intros ?E; first [congruence | apply Hun; reflexivity].

(** ** Lifecycle *)

Lemma closeImage_closed s :
  _currentFile s = None -> closeImage s = s.
Proof. unfold closeImage. intros ->. reflexivity. Qed.

Lemma closeImage_file s : _currentFile (closeImage s) = None.
Proof. unfold closeImage. destruct (_currentFile s) eqn:E; [reflexivity | exact E]. Qed.

Lemma closeImage_idem s : closeImage (closeImage s) = closeImage s.
Proof. apply closeImage_closed, closeImage_file. Qed.

(** C9. Lifecycle idempotence: a second [end] in a row returns the bus
    and the reader exactly as the first one left them, and [closeImage]
    on a reader with no open file returns the reader unchanged (both are
    total functions, so neither can fail). *)
Theorem end_closeImage_idempotent (bus : Bus) (s : StorageReader) :
  (let '(bus1, s1) := end_ bus s in end_ bus1 s1 = (bus1, s1))
  /\ (isImageOpen s = false -> closeImage s = s)
  /\ closeImage (closeImage s) = closeImage s.
Proof.
  split; [| split].
  - unfold end_.
    destruct (_mounted (closeImage s)) eqn:M; cbn.
    + rewrite closeImage_closed by (cbn; apply closeImage_file).
      reflexivity.
    + rewrite closeImage_idem, M. reflexivity.
  - unfold isImageOpen. intros H. apply closeImage_closed.
    destruct (_currentFile s); [| reflexivity].
    rewrite bool_decide_eq_false in H. exfalso. apply H. eauto.
  - apply closeImage_idem.
Qed.

Lemma end_closeImage_idempotent_witness :
  isImageOpen Examples.mounted_reader = false
  /\ closeImage Examples.mounted_reader = Examples.mounted_reader.
Proof.
  split; [reflexivity |].
  apply (proj1 (proj2 (end_closeImage_idempotent Examples.bus_off Examples.mounted_reader))).
  reflexivity.
Defined.

(** ** Directory scan *)

Lemma u8_small x : 0 <= x < 256 -> u8 x = x.
Proof. intros H. unfold u8. apply Z.mod_small. lia. Qed.

Lemma u32_small x : 0 <= x < 2 ^ 32 -> u32 x = x.
Proof. intros H. unfold u32. apply Z.mod_small. exact H. Qed.

Lemma u32_range x : 0 <= u32 x < 2 ^ 32.
Proof. unfold u32. apply Z.mod_pos_bound. lia. Qed.

(** What the loop leaves behind, in closed form: the accepted entries,
    in directory order, fill the free slots of the array from
    [_imageCount] on until the array is full. *)
Lemma scan_loop_spec (pending : list DirEntry) :
  forall s : StorageReader,
    List.length (_catalogue s) = Z.to_nat VSENSOR_MAX_IMAGES ->
    0 <= _imageCount s <= VSENSOR_MAX_IMAGES ->
    let c := Z.to_nat (_imageCount s) in
    let acc := take (Z.to_nat VSENSOR_MAX_IMAGES - c) (List.filter accepted pending) in
    scan_loop pending s =
      {| _mounted := _mounted s;
         _imageCount := _imageCount s + Z.of_nat (List.length acc);
         _catalogue := take c (_catalogue s) ++ map make_entry acc
                         ++ drop (c + List.length acc) (_catalogue s);
         _currentFile := _currentFile s;
         _currentIndex := _currentIndex s;
         _currentBlock := _currentBlock s |}.
Proof.
  unfold VSENSOR_MAX_IMAGES.
  assert (Hstop : forall s : StorageReader,
             {| _mounted := _mounted s;
                _imageCount := _imageCount s + Z.of_nat 0;
                _catalogue := take (Z.to_nat (_imageCount s)) (_catalogue s) ++ map make_entry []
                                ++ drop (Z.to_nat (_imageCount s) + 0) (_catalogue s);
                _currentFile := _currentFile s;
                _currentIndex := _currentIndex s;
                _currentBlock := _currentBlock s |} = s).
  { intros [m c cat f i b]. cbn. rewrite Z.add_0_r, Nat.add_0_r, take_drop. reflexivity. }
  induction pending as [| e rest IH]; intros s Hlen Hcount; cbn zeta.
  - cbn [List.filter]. rewrite take_nil. cbn [List.length]. rewrite Hstop.
    cbn. destruct (_imageCount s <? VSENSOR_MAX_IMAGES); reflexivity.
  - cbn [scan_loop List.filter]. unfold VSENSOR_MAX_IMAGES.
    destruct (Z.ltb_spec (_imageCount s) 32) as [Hlt | Hge].
    + destruct (accepted e) eqn:He.
      * rewrite IH; cbn [add_entry _imageCount _catalogue _mounted _currentFile
                           _currentIndex _currentBlock].
        -- rewrite u8_small by lia.
           replace (Z.to_nat 32 - Z.to_nat (_imageCount s))%nat
             with (S (Z.to_nat 32 - Z.to_nat (_imageCount s + 1)))%nat by lia.
           cbn [take map List.length].
           set (acc := take _ (List.filter accepted rest)).
           f_equal.
           ++ lia.
           ++ replace (Z.to_nat (_imageCount s + 1)) with (S (Z.to_nat (_imageCount s))) by lia.
              rewrite (take_S_r _ _ (make_entry e))
                by (apply list_lookup_insert_eq; lia).
              rewrite take_insert_ge by lia.
              rewrite drop_insert_lt by lia.
              rewrite <- app_assoc. cbn.
              rewrite Nat.add_succ_r. reflexivity.
        -- rewrite length_insert. exact Hlen.
        -- rewrite u8_small by lia. lia.
      * apply IH; assumption.
    + replace (Z.to_nat 32 - Z.to_nat (_imageCount s))%nat with 0%nat by lia.
      rewrite take_0. cbn [List.length]. rewrite Hstop. reflexivity.
Qed.

Lemma length_take_le {A} (l : list A) n : (List.length (take n l) <= n)%nat.
Proof. rewrite length_take. lia. Qed.

(** [_scanDirectory] in closed form, for a directory that opens. *)
Lemma scanDirectory_spec (sd : Medium) (s : StorageReader) (entries : list DirEntry) :
  images_dir sd = Some entries ->
  List.length (_catalogue s) = Z.to_nat VSENSOR_MAX_IMAGES ->
  let acc := take (Z.to_nat VSENSOR_MAX_IMAGES) (List.filter accepted entries) in
  _scanDirectory sd s =
    (Z.ltb 0 (Z.of_nat (List.length acc)),
     {| _mounted := _mounted s;
        _imageCount := Z.of_nat (List.length acc);
        _catalogue := map make_entry acc ++ drop (List.length acc) (_catalogue s);
        _currentFile := _currentFile s;
        _currentIndex := _currentIndex s;
        _currentBlock := _currentBlock s |}).
Proof.
  intros Hdir Hlen. unfold _scanDirectory. rewrite Hdir.
  rewrite scan_loop_spec; cbn; [| exact Hlen | unfold VSENSOR_MAX_IMAGES; lia].
  rewrite Nat.sub_0_r. reflexivity.
Qed.

Lemma scan_loop_count (pending : list DirEntry) :
  forall s : StorageReader,
    0 <= _imageCount s <= VSENSOR_MAX_IMAGES ->
    0 <= _imageCount (scan_loop pending s) <= VSENSOR_MAX_IMAGES.
Proof.
  unfold VSENSOR_MAX_IMAGES.
  induction pending as [| e rest IH]; intros s Hc; cbn [scan_loop]; unfold VSENSOR_MAX_IMAGES.
  - destruct (_imageCount s <? 32); exact Hc.
  - destruct (Z.ltb_spec (_imageCount s) 32) as [Hlt | Hge]; [| exact Hc].
    destruct (accepted e); apply IH; [| exact Hc].
    cbn. rewrite u8_small by lia. lia.
Qed.

Lemma scanDirectory_count (sd : Medium) (s : StorageReader) :
  0 <= _imageCount (snd (_scanDirectory sd s)) <= VSENSOR_MAX_IMAGES.
Proof.
  unfold _scanDirectory. destruct (images_dir sd) as [entries |]; cbn [snd].
  - apply scan_loop_count. cbn. unfold VSENSOR_MAX_IMAGES. lia.
  - cbn. unfold VSENSOR_MAX_IMAGES. lia.
Qed.

(** C8. Capacity truncation: the image count after a scan never exceeds
    [VSENSOR_MAX_IMAGES]; and when the directory holds more eligible
    files than that, the scan returns [true] with exactly
    [VSENSOR_MAX_IMAGES] entries, which are the first eligible files in
    directory order. *)
Theorem scan_capacity_truncation :
  (forall (sd : Medium) (s : StorageReader),
      0 <= imageCount (snd (_scanDirectory sd s)) <= VSENSOR_MAX_IMAGES)
  /\ (forall (sd : Medium) (s : StorageReader) (entries : list DirEntry),
         images_dir sd = Some entries ->
         List.length (_catalogue s) = Z.to_nat VSENSOR_MAX_IMAGES ->
         (Z.to_nat VSENSOR_MAX_IMAGES < List.length (List.filter accepted entries))%nat ->
         fst (_scanDirectory sd s) = true
         /\ imageCount (snd (_scanDirectory sd s)) = VSENSOR_MAX_IMAGES
         /\ _catalogue (snd (_scanDirectory sd s)) =
              map make_entry (take (Z.to_nat VSENSOR_MAX_IMAGES)
                                   (List.filter accepted entries))).
Proof.
  split; [exact scanDirectory_count |].
  intros sd s entries Hdir Hlen Hmany.
  rewrite (scanDirectory_spec sd s entries Hdir Hlen). cbn [fst snd imageCount _imageCount _catalogue].
  assert (Hacc : List.length (take (Z.to_nat VSENSOR_MAX_IMAGES) (List.filter accepted entries))
                 = Z.to_nat VSENSOR_MAX_IMAGES).
  { rewrite length_take. lia. }
  rewrite Hacc. split; [reflexivity |]. split; [reflexivity |].
  rewrite drop_ge by lia. apply app_nil_r.
Qed.

Lemma scan_capacity_truncation_witness :
  fst (_scanDirectory Examples.crowded_sd StorageReader_new) = true
  /\ imageCount (snd (_scanDirectory Examples.crowded_sd StorageReader_new)) = 32.
Proof.
  pose proof (proj2 scan_capacity_truncation Examples.crowded_sd StorageReader_new
                _ eq_refl eq_refl) as H.
  destruct H as (Hok & Hcount & _).
  - vm_compute. lia.
  - split; [exact Hok | exact Hcount].
Defined.

(** The block count of a scanned entry is the ceiling of its size over
    the block size as long as [fileSize + VSENSOR_BLOCK_SIZE - 1] fits
    32 bits. *)
Lemma make_entry_blocks (e : DirEntry) :
  0 <= size e ->
  size e + VSENSOR_BLOCK_SIZE - 1 < 2 ^ 32 ->
  fileSize (make_entry e) = size e
  /\ fileSize (make_entry e) <= totalBlocks (make_entry e) * VSENSOR_BLOCK_SIZE
  /\ totalBlocks (make_entry e) * VSENSOR_BLOCK_SIZE < fileSize (make_entry e) + VSENSOR_BLOCK_SIZE
  /\ (0 < fileSize (make_entry e) -> 1 <= totalBlocks (make_entry e)).
Proof.
  unfold VSENSOR_BLOCK_SIZE. intros H0 Hfit. cbn.
  unfold VSENSOR_BLOCK_SIZE.
  rewrite (u32_small (size e)) by lia.
  assert (Hw : u32 (u32 (size e + 512) - 1) = size e + 512 - 1).
  { unfold u32. rewrite Zminus_mod_idemp_l. apply Z.mod_small. lia. }
  rewrite !Hw.
  pose proof (Z.div_mod (size e + 512 - 1) 512 ltac:(lia)) as Hd.
  pose proof (Z.mod_pos_bound (size e + 512 - 1) 512 ltac:(lia)) as Hm.
  lia.
Qed.

(** C5. Block-count invariant, at the largest file size of a FAT32
    volume: the scan catalogues the file with [totalBlocks = 0] although
    [fileSize > 0], where the ceiling of [fileSize / VSENSOR_BLOCK_SIZE]
    is 8388608. *)
Theorem scan_block_count_overflow :
  let '(ok, s) := _scanDirectory Examples.huge_sd StorageReader_new in
  let e := catalogue_at (_catalogue s) 0 in
  ok = true
  /\ imageCount s = 1
  /\ fileSize e = 4294967295
  /\ totalBlocks e = 0
  /\ (fileSize e + VSENSOR_BLOCK_SIZE - 1) / VSENSOR_BLOCK_SIZE = 8388608.
Proof. vm_compute. repeat split; reflexivity. Qed.

(** ** Mount *)

(** C10. When [begin] is called on an unmounted reader, the card mounts
    and the image directory holds no eligible file, [begin] returns
    [false] and leaves the reader mounted with an image count of 0; the
    next [begin], whatever the card then holds, returns [true] and
    changes neither the bus nor the reader, so the count stays 0. *)
Theorem begin_after_empty_scan
    (sd sd' : Medium) (bus : Bus) (s : StorageReader) (entries : list DirEntry) :
  _mounted s = false ->
  mount_ok sd = true ->
  card_type sd <> CARD_NONE ->
  images_dir sd = Some entries ->
  List.filter accepted entries = [] ->
  let '(ok, bus1, s1) := begin sd bus s in
  ok = false
  /\ _mounted s1 = true
  /\ imageCount s1 = 0
  /\ begin sd' bus1 s1 = (true, bus1, s1).
Proof.
  intros Hm Hok Hcard Hdir Hnone.
  unfold begin. rewrite Hm, Hok. cbn [negb].
  destruct (Z.eqb_spec (card_type sd) CARD_NONE) as [E | _]; [contradiction |].
  unfold _scanDirectory. rewrite Hdir.
  assert (Hloop : forall pending t,
             List.filter accepted pending = [] -> scan_loop pending t = t).
  { induction pending as [| e rest IH]; intros t Hf; cbn [scan_loop].
    - destruct (_imageCount t <? VSENSOR_MAX_IMAGES); reflexivity.
    - cbn [List.filter] in Hf. destruct (accepted e); [discriminate |].
      rewrite IH by exact Hf.
      destruct (_imageCount t <? VSENSOR_MAX_IMAGES); reflexivity. }
  rewrite Hloop by exact Hnone. cbn.
  repeat split; reflexivity.
Qed.

Lemma begin_after_empty_scan_witness :
  let '(ok, bus1, s1) := begin Examples.empty_sd Examples.bus_off StorageReader_new in
  ok = false
  /\ _mounted s1 = true
  /\ imageCount s1 = 0
  /\ begin Examples.filter_sd bus1 s1 = (true, bus1, s1).
Proof.
  apply (begin_after_empty_scan Examples.empty_sd Examples.filter_sd Examples.bus_off
           StorageReader_new
           [ {| name := "notes.txt"; isDirectory := false; size := 7 |} ]).
  - reflexivity.
  - reflexivity.
  - vm_compute. discriminate.
  - reflexivity.
  - reflexivity.
Defined.

(** ** Out-of-range requests *)

(** C6. Out-of-range atomicity: for an index at or beyond the image
    count, [getImageInfo] and [openImage] return [false]; for a block
    index at or beyond the block count of the current entry, [readBlock]
    returns [false]; each leaves the reader (catalogue, count, file
    handle, active index, cursor) and the caller's out-parameter exactly
    as they were. *)
Theorem out_of_range_leaves_state
    (sd : Medium) (s : StorageReader) (index blockIdx : Z)
    (info : ImageInfo) (result : BlockReadResult) :
  (_imageCount s <= index ->
     getImageInfo s index info = (false, info)
     /\ openImage sd s index = (false, s))
  /\ (totalBlocks (catalogue_at (_catalogue s) (_currentIndex s)) <= blockIdx ->
        readBlock s blockIdx result = (false, result, s)).
Proof.
  split.
  - intros Hge. unfold getImageInfo, openImage.
    destruct (Z.leb_spec (_imageCount s) index) as [_ | Hlt]; [| lia].
    rewrite orb_true_r. split; reflexivity.
  - intros Hge. unfold readBlock.
    destruct (_currentFile s) as [f |]; [| reflexivity].
    destruct (Z.leb_spec (totalBlocks (catalogue_at (_catalogue s) (_currentIndex s)))
                blockIdx) as [_ | Hlt]; [reflexivity | lia].
Qed.

Lemma out_of_range_leaves_state_witness :
  (getImageInfo Examples.open_reader 1 ImageInfo_zero = (false, ImageInfo_zero)
   /\ openImage Examples.filter_sd Examples.open_reader 1 = (false, Examples.open_reader))
  /\ readBlock Examples.open_reader 1 Examples.blank
     = (false, Examples.blank, Examples.open_reader).
Proof.
  pose proof (out_of_range_leaves_state Examples.filter_sd Examples.open_reader 1 1
                ImageInfo_zero Examples.blank) as [Hidx Hblk].
  split.
  - apply Hidx. vm_compute. discriminate.
  - apply Hblk. vm_compute. discriminate.
Defined.

(** ** No stream versus end of data *)

(** C3, as stated, fails: a reader with no stream open and a reader
    whose stream is exhausted hand back the same return value and the
    same untouched result. *)
Lemma no_stream_same_as_end_of_data :
  _currentFile Examples.mounted_reader = None
  /\ at_end_of_data Examples.drained_reader
  /\ returned (readNextBlock Examples.mounted_reader Examples.blank)
     = returned (readNextBlock Examples.drained_reader Examples.blank).
Proof.
  split; [reflexivity |]. split.
  - split; [vm_compute; eauto | vm_compute; discriminate].
  - vm_compute. reflexivity.
Qed.

(** ** Scan filter *)

(** The filter of the scan loop, condition by condition. *)
Lemma accepted_iff (e : DirEntry) :
  accepted e = true <->
  isDirectory e = false
  /\ starts_with_dot (name e) = false
  /\ (endsWith (toLowerCase (name e)) ".jpg" = true
      \/ endsWith (toLowerCase (name e)) ".jpeg" = true).
Proof.
  unfold accepted.
  destruct (isDirectory e), (starts_with_dot (name e)),
    (endsWith (toLowerCase (name e)) ".jpg"),
    (endsWith (toLowerCase (name e)) ".jpeg"); cbn; intuition discriminate.
Qed.

Lemma substring_whole (s : string) : String.substring 0 (String.length s) s = s.
Proof. induction s as [| c r IH]; cbn; [reflexivity | rewrite IH; reflexivity]. Qed.

Lemma eqb_length (s t : string) :
  String.length s <> String.length t -> String.eqb s t = false.
Proof.
  intros Hne. destruct (String.eqb_spec s t) as [-> | _]; [contradiction | reflexivity].
Qed.

(** [endsWith] looks at the tail of the name as long as the suffix
    still fits in it. *)
Lemma endsWith_cons (c : ascii) (r suffix : string) :
  endsWith (String c r) suffix =
    if (String.length suffix <=? String.length r)%nat
    then endsWith r suffix
    else String.eqb (String c r) suffix.
Proof.
  unfold endsWith. cbn [String.length].
  destruct (Nat.leb_spec (String.length suffix) (String.length r)) as [Hle | Hgt].
  - destruct (Nat.ltb_spec (S (String.length r)) (String.length suffix)); [lia |].
    destruct (Nat.ltb_spec (String.length r) (String.length suffix)); [lia |].
    replace (S (String.length r) - String.length suffix)%nat
      with (S (String.length r - String.length suffix)) by lia.
    reflexivity.
  - destruct (Nat.ltb_spec (S (String.length r)) (String.length suffix)) as [Hlt | Hge].
    + symmetry. apply eqb_length. cbn. lia.
    + replace (S (String.length r) - String.length suffix)%nat with 0%nat by lia.
      replace (String.length suffix) with (String.length (String c r)) by (cbn; lia).
      rewrite substring_whole. reflexivity.
Qed.

Lemma extension_length (n x : string) :
  extension n = Some x -> (String.length x <= String.length n)%nat.
Proof.
  revert x. induction n as [| c r IH]; intros x; cbn [extension]; [discriminate |].
  destruct (extension r) as [y |].
  - intros [= <-]. specialize (IH y eq_refl). cbn. lia.
  - destruct (Ascii.eqb c "."); [| discriminate]. intros [= <-]. lia.
Qed.

(** A name ends with [".t"], [t] free of dots, exactly when [".t"] is
    its extension. *)
Lemma endsWith_extension (t n : string) :
  extension t = None ->
  endsWith n (String "." t) = true <-> extension n = Some (String "." t).
Proof.
  intros Ht. induction n as [| c r IH].
  - cbn. split; discriminate.
  - rewrite endsWith_cons. cbn [extension].
    destruct (Nat.leb_spec (String.length (String "." t)) (String.length r)) as [Hle | Hgt].
    + rewrite IH. destruct (extension r) as [y |]; [tauto |].
      split; [discriminate |].
      destruct (Ascii.eqb c "."); [| discriminate].
      intros [= Hc Hr]. subst. cbn in Hle. lia.
    + rewrite String.eqb_eq. split.
      * intros [= -> ->]. rewrite Ht. reflexivity.
      * destruct (extension r) as [y |] eqn:Er.
        -- intros [= ->]. apply extension_length in Er. lia.
        -- destruct (Ascii.eqb c "."); [| discriminate]. intros [= -> ->]. reflexivity.
Qed.

Lemma lower_ascii_dot (c : ascii) :
  Ascii.eqb (lower_ascii c) "." = Ascii.eqb c ".".
Proof. destruct c as [[] [] [] [] [] [] [] []]; reflexivity. Qed.

Lemma extension_toLowerCase (n : string) :
  extension (toLowerCase n) = option_map toLowerCase (extension n).
Proof.
  induction n as [| c r IH]; cbn [toLowerCase extension]; [reflexivity |].
  rewrite IH, lower_ascii_dot.
  destruct (extension r); cbn; [reflexivity |].
  destruct (Ascii.eqb c "."); reflexivity.
Qed.

Lemma endsWith_lower_extension (t n : string) :
  extension t = None ->
  endsWith (toLowerCase n) (String "." t) =
    match extension n with
    | Some x => String.eqb (toLowerCase x) (String "." t)
    | None => false
    end.
Proof.
  intros Ht. apply eq_true_iff_eq.
  rewrite (endsWith_extension t _ Ht), extension_toLowerCase.
  destruct (extension n) as [x |]; cbn.
  - rewrite String.eqb_eq. split; [intros [= ->]; reflexivity | intros ->; reflexivity].
  - split; discriminate.
Qed.

Lemma accepted_eligible (e : DirEntry) : accepted e = eligible e.
Proof.
  unfold accepted, eligible, has_image_extension, image_extensions.
  rewrite (endsWith_lower_extension "jpg") by reflexivity.
  rewrite (endsWith_lower_extension "jpeg") by reflexivity.
  destruct (isDirectory e), (starts_with_dot (name e)); cbn; try reflexivity.
  destruct (extension (name e)) as [x |]; cbn; [| reflexivity].
  destruct (String.eqb (toLowerCase x) ".jpg"), (String.eqb (toLowerCase x) ".jpeg");
    reflexivity.
Qed.

(** C7. Filter correctness: the entries that the scan catalogues are,
    in directory order and up to the capacity, exactly those that are no
    directory, whose name does not begin with ['.'], and whose extension
    is [.jpg] or [.jpeg] with case ignored; the directory holding
    [a.JPG], [b.png], [.hidden.jpg] and a subdirectory [c.jpg] yields
    the single entry [a.JPG]. *)
Theorem scan_filter_correct :
  (forall e : DirEntry, accepted e = eligible e)
  /\ (forall (sd : Medium) (s : StorageReader) (entries : list DirEntry),
         images_dir sd = Some entries ->
         List.length (_catalogue s) = Z.to_nat VSENSOR_MAX_IMAGES ->
         let s' := snd (_scanDirectory sd s) in
         take (Z.to_nat (imageCount s')) (_catalogue s') =
           map make_entry (take (Z.to_nat VSENSOR_MAX_IMAGES)
                                (List.filter eligible entries)))
  /\ (let '(ok, s') := _scanDirectory Examples.filter_sd StorageReader_new in
      ok = true
      /\ imageCount s' = 1
      /\ filename (catalogue_at (_catalogue s') 0) = "/images/a.JPG").
Proof.
  split; [exact accepted_eligible |]. split.
  - intros sd s entries Hdir Hlen.
    rewrite (scanDirectory_spec sd s entries Hdir Hlen).
    cbn [snd imageCount _imageCount _catalogue].
    rewrite (List.filter_ext _ _ accepted_eligible).
    rewrite Nat2Z.id.
    rewrite take_app_length'; [reflexivity |].
    rewrite length_map. reflexivity.
  - vm_compute. repeat split; reflexivity.
Qed.

Lemma scan_filter_correct_witness :
  let s' := snd (_scanDirectory Examples.filter_sd StorageReader_new) in
  take (Z.to_nat (imageCount s')) (_catalogue s') =
    [ {| filename := "/images/a.JPG"; fileSize := 3; totalBlocks := 1; checksum := 0 |} ].
Proof.
  cbn zeta.
  rewrite (proj1 (proj2 scan_filter_correct) Examples.filter_sd StorageReader_new
             _ eq_refl eq_refl).
  reflexivity.
Defined.

(** ** Checksum *)

Lemma bytes_from_S d pos n :
  bytes_from d pos (S n) = fbyte d pos :: bytes_from d (pos + 1) n.
Proof.
  unfold bytes_from. cbn [seq map]. rewrite Z.add_0_r. f_equal.
  rewrite <- seq_shift, map_map. apply map_ext. intros i. f_equal. lia.
Qed.

Lemma bytes_from_app d pos a b :
  bytes_from d pos (a + b) = bytes_from d pos a ++ bytes_from d (pos + Z.of_nat a) b.
Proof.
  revert pos. induction a as [| a IH]; intros pos.
  - cbn. rewrite Z.add_0_r. reflexivity.
  - cbn [Nat.add]. rewrite !bytes_from_S, IH. cbn. do 3 f_equal. lia.
Qed.

Lemma length_bytes_from d pos n : List.length (bytes_from d pos n) = n.
Proof. unfold bytes_from. rewrite length_map, length_seq. reflexivity. Qed.

Lemma read_fst f n :
  fst (read f n) = bytes_from (fdata f) (fpos f) (Z.to_nat (Z.min n (available f))).
Proof. reflexivity. Qed.

Lemma read_remaining f n :
  remaining f = fst (read f n) ++ remaining (snd (read f n)).
Proof.
  unfold remaining. rewrite read_fst. unfold read. cbn [snd fdata fpos].
  rewrite <- bytes_from_app. f_equal.
  unfold available. cbn [fdata fpos]. lia.
Qed.

Lemma checksum_loop_fold (f : File) (sums : Z * Z) :
  checksum_loop f sums = fold_left fletcher_step (remaining f) sums.
Proof.
  funelim (checksum_loop f sums).
  - unfold remaining. rewrite e. reflexivity.
  - rewrite H. rewrite (read_remaining f VSENSOR_BLOCK_SIZE) at 1.
    rewrite fold_left_app. reflexivity.
Qed.

Lemma fletcher_step_sums (bs : list byte) (sums : Z * Z) :
  fold_left fletcher_step bs sums =
  fold_left
    (fun sums b =>
       let sum1 := (fst sums + byte_val b) mod 255 in
       (sum1, (snd sums + sum1) mod 255))
    bs sums.
Proof.
  revert sums. induction bs as [| b bs IH]; intros sums; cbn [fold_left]; [reflexivity |].
  rewrite IH. f_equal. unfold fletcher_step, u16.
  pose proof (Z.mod_pos_bound (fst sums + byte_val b) 255 ltac:(lia)) as H1.
  rewrite (Z.mod_small ((fst sums + byte_val b) mod 255)) by lia.
  pose proof (Z.mod_pos_bound (snd sums + (fst sums + byte_val b) mod 255) 255 ltac:(lia)) as H2.
  rewrite (Z.mod_small ((snd sums + _) mod 255)) by lia.
  reflexivity.
Qed.

Lemma fletcher16_sums_range (bs : list byte) :
  0 <= fst (fletcher16_sums bs) < 255 /\ 0 <= snd (fletcher16_sums bs) < 255.
Proof.
  unfold fletcher16_sums.
  assert (H : forall sums, (0 <= fst sums < 255 /\ 0 <= snd sums < 255) ->
            let r := fold_left
                       (fun sums b =>
                          let sum1 := (fst sums + byte_val b) mod 255 in
                          (sum1, (snd sums + sum1) mod 255)) bs sums in
            0 <= fst r < 255 /\ 0 <= snd r < 255).
  { induction bs as [| b bs IH]; intros sums Hs; cbn [fold_left]; [exact Hs |].
    apply IH. cbn [fst snd]. split; apply Z.mod_pos_bound; lia. }
  apply H. cbn. lia.
Qed.

(** Packing two bytes with shift and or is the same as [hi * 256 + lo]. *)
Lemma pack_bytes (hi lo : Z) :
  0 <= hi < 2 ^ 8 -> 0 <= lo < 2 ^ 8 ->
  u16 (Z.lor (Z.shiftl hi 8) lo) = hi * 2 ^ 8 + lo.
Proof.
  intros Hhi Hlo.
  assert (Hand : Z.land (Z.shiftl hi 8) lo = 0).
  { apply Z.bits_inj'. intros n Hn. rewrite Z.land_spec, Z.bits_0.
    destruct (Z.lt_ge_cases n 8) as [Hlt | Hge].
    - rewrite Z.shiftl_spec_low by lia. reflexivity.
    - rewrite (Z.bits_above_log2 lo n); [apply andb_false_r | lia |].
      destruct (Z.eq_dec lo 0) as [-> | Hnz]; [cbn; lia |].
      apply Z.log2_lt_pow2; [lia |].
      apply Z.lt_le_trans with (2 ^ 8); [lia |].
      apply Z.pow_le_mono_r; lia. }
  rewrite <- Z.lxor_lor by exact Hand.
  rewrite <- Z.add_nocarry_lxor by exact Hand.
  rewrite Z.shiftl_mul_pow2 by lia.
  unfold u16. apply Z.mod_small. lia.
Qed.

Lemma computeChecksum_opened (sd : Medium) (s : StorageReader) (index : Z) (d : FileData) :
  _mounted s = true ->
  index < _imageCount s ->
  files sd !! filename (catalogue_at (_catalogue s) index) = Some d ->
  computeChecksum sd s index = fletcher16 (file_bytes d).
Proof.
  intros Hm Hidx Hfile. unfold computeChecksum, SD_open.
  rewrite Hm, Hfile. cbn [negb orb].
  destruct (Z.leb_spec (_imageCount s) index) as [Hle | _]; [lia |].
  rewrite checksum_loop_fold, fletcher_step_sums.
  assert (Hrem : remaining {| fdata := d; fpos := 0 |} = file_bytes d).
  { unfold remaining, file_bytes, available. cbn [fdata fpos]. f_equal. lia. }
  rewrite Hrem.
  change (fold_left _ (file_bytes d) (0, 0)) with (fletcher16_sums (file_bytes d)).
  pose proof (fletcher16_sums_range (file_bytes d)) as [H1 H2].
  unfold fletcher16.
  destruct (fletcher16_sums (file_bytes d)) as [sum1 sum2]. cbn [fst snd] in *.
  apply pack_bytes; lia.
Qed.

(** C4. Checksum correctness and determinism: for a mounted reader, a
    valid index and a file that opens, [computeChecksum] returns the
    Fletcher-16 value of the file's bytes ([sum1], [sum2] accumulated
    mod 255), with [sum2] as its high byte and [sum1] as its low byte;
    the value depends on the bytes of the file only, so a second call on
    an unchanged file returns the same; it is 0 for a file of length 0
    and [0x0A06] for the three bytes 1, 2, 3. *)
Theorem computeChecksum_fletcher16
    (sd : Medium) (s : StorageReader) (index : Z) (d : FileData) :
  _mounted s = true ->
  index < _imageCount s ->
  files sd !! filename (catalogue_at (_catalogue s) index) = Some d ->
  computeChecksum sd s index = fletcher16 (file_bytes d)
  /\ computeChecksum sd s index / 2 ^ 8 = snd (fletcher16_sums (file_bytes d))
  /\ computeChecksum sd s index mod 2 ^ 8 = fst (fletcher16_sums (file_bytes d))
  /\ (fsize d = 0 -> computeChecksum sd s index = 0)
  /\ (file_bytes d = ["001"; "002"; "003"]%byte -> computeChecksum sd s index = 0x0A06)
  /\ (forall (sd' : Medium) (s' : StorageReader) (index' : Z) (d' : FileData),
         _mounted s' = true ->
         index' < _imageCount s' ->
         files sd' !! filename (catalogue_at (_catalogue s') index') = Some d' ->
         file_bytes d' = file_bytes d ->
         computeChecksum sd' s' index' = computeChecksum sd s index).
Proof.
  intros Hm Hidx Hfile.
  rewrite (computeChecksum_opened sd s index d Hm Hidx Hfile).
  pose proof (fletcher16_sums_range (file_bytes d)) as [H1 H2].
  split; [reflexivity |]. unfold fletcher16.
  split; [| split; [| split; [| split]]].
  - rewrite Z.div_add_l by lia. rewrite Z.div_small by lia. lia.
  - rewrite Z.add_comm, Z.mod_add by lia. apply Z.mod_small. lia.
  - intros Hz. unfold file_bytes. rewrite Hz. reflexivity.
  - intros ->. reflexivity.
  - intros sd' s' index' d' Hm' Hidx' Hfile' Hsame.
    rewrite (computeChecksum_opened sd' s' index' d' Hm' Hidx' Hfile').
    unfold fletcher16. rewrite Hsame. reflexivity.
Qed.

Lemma computeChecksum_fletcher16_witness :
  computeChecksum Examples.filter_sd Examples.open_reader 0 = 0x0A06
  /\ computeChecksum Examples.filter_sd Examples.mounted_reader 0
     = computeChecksum Examples.filter_sd Examples.open_reader 0.
Proof.
  pose proof (computeChecksum_fletcher16 Examples.filter_sd Examples.open_reader 0
                (file_of_bytes Examples.abc_bytes) eq_refl eq_refl eq_refl) as H.
  destruct H as (_ & _ & _ & _ & Habc & Hdet).
  split.
  - apply Habc. reflexivity.
  - apply (Hdet Examples.filter_sd Examples.mounted_reader 0
             (file_of_bytes Examples.abc_bytes)); reflexivity.
Defined.

(** ** Block reads *)

Lemma readAtOffset_deliver f off k total r :
  _readAtOffset f off k total r =
    match (if Z.eqb (position f) off then Some f else seek f off) with
    | None => (false, r, f)
    | Some f1 => deliver f1 k total r
    end.
Proof. reflexivity. Qed.

Lemma seek_inv f off f1 :
  seek f off = Some f1 -> f1 = {| fdata := fdata f; fpos := off |} /\ off <= fsize (fdata f).
Proof.
  unfold seek. destruct (Z.leb_spec off (fsize (fdata f))); [| discriminate].
  intros [= <-]. split; [reflexivity | assumption].
Qed.

(** On a handle within its file, checking the position first makes no
    difference to where the read starts. *)
Lemma position_or_seek f off :
  file_ok f ->
  (if Z.eqb (position f) off then Some f else seek f off) = seek f off.
Proof.
  intros [H0 H1]. unfold position, seek.
  destruct (Z.eqb_spec (fpos f) off) as [E | NE]; [| reflexivity].
  subst off. destruct (Z.leb_spec (fpos f) (fsize (fdata f))); [| lia].
  destruct f; reflexivity.
Qed.

Lemma deliver_cases f1 k total r :
  let bytes := fst (read f1 VSENSOR_BLOCK_SIZE) in
  (bytes = [] /\ deliver f1 k total r = (false, r, snd (read f1 VSENSOR_BLOCK_SIZE)))
  \/ (bytes <> []
      /\ deliver f1 k total r =
           (true,
            {| data := bytes ++ drop (List.length bytes) (data r);
               length := Z.of_nat (List.length bytes);
               blockIndex := k;
               isLast := Z.eqb k (u32 (total - 1)) |},
            snd (read f1 VSENSOR_BLOCK_SIZE))).
Proof.
  unfold deliver. destruct (read f1 VSENSOR_BLOCK_SIZE) as [bytes f2]. cbn [fst snd].
  destruct bytes as [| b bs].
  - left. split; [reflexivity |]. cbn. destruct r; reflexivity.
  - right. split; [discriminate | reflexivity].
Qed.

Lemma deliver_file_ok f1 k total r :
  file_ok f1 -> file_ok (snd (deliver f1 k total r)).
Proof.
  intros [H0 H1].
  assert (Hf : file_ok (snd (read f1 VSENSOR_BLOCK_SIZE))).
  { unfold file_ok, read, available, VSENSOR_BLOCK_SIZE. cbn [snd fdata fpos]. lia. }
  destruct (deliver_cases f1 k total r) as [[_ ->] | [_ ->]]; exact Hf.
Qed.

Lemma readBlock_open s f k r :
  _currentFile s = Some f ->
  k < totalBlocks (catalogue_at (_catalogue s) (_currentIndex s)) ->
  readBlock s k r =
    match seek f (u32 (k * VSENSOR_BLOCK_SIZE)) with
    | None => (false, r, s)
    | Some f1 =>
        let '(ok, r1, f') :=
          deliver f1 k (totalBlocks (catalogue_at (_catalogue s) (_currentIndex s))) r in
        (ok, r1, set_file s (Some f'))
    end.
Proof.
  intros Hf Hk. unfold readBlock. rewrite Hf.
  destruct (Z.leb_spec (totalBlocks (catalogue_at (_catalogue s) (_currentIndex s))) k);
    [lia |].
  destruct (seek f (u32 (k * VSENSOR_BLOCK_SIZE))) as [f1 |] eqn:Hs; [| reflexivity].
  apply seek_inv in Hs as [-> _].
  rewrite readAtOffset_deliver. unfold position. cbn [fpos].
  rewrite Z.eqb_refl. reflexivity.
Qed.

Lemma readNextBlock_open s f r :
  _currentFile s = Some f ->
  file_ok f ->
  _currentBlock s < totalBlocks (catalogue_at (_catalogue s) (_currentIndex s)) ->
  readNextBlock s r =
    match seek f (u32 (_currentBlock s * VSENSOR_BLOCK_SIZE)) with
    | None => (false, r, set_file s (Some f))
    | Some f1 =>
        let '(ok, r1, f') :=
          deliver f1 (_currentBlock s)
                  (totalBlocks (catalogue_at (_catalogue s) (_currentIndex s))) r in
        if ok
        then (true, r1, set_block (set_file s (Some f')) (u32 (_currentBlock s + 1)))
        else (false, r1, set_file s (Some f'))
    end.
Proof.
  intros Hf Hok Hk. unfold readNextBlock. rewrite Hf.
  destruct (Z.leb_spec (totalBlocks (catalogue_at (_catalogue s) (_currentIndex s)))
              (_currentBlock s)); [lia |].
  rewrite readAtOffset_deliver, position_or_seek by exact Hok.
  destruct (seek f (u32 (_currentBlock s * VSENSOR_BLOCK_SIZE))); reflexivity.
Qed.

Lemma seek_same_data f g off :
  fdata f = fdata g -> seek f off = seek g off.
Proof. intros E. unfold seek. rewrite E. reflexivity. Qed.

(** [readNextBlock] hands back the same thing and moves the cursor the
    same way wherever the handle currently stands in the file. *)
Lemma readNextBlock_any_position s f g r :
  _currentFile s = Some f ->
  file_ok f -> file_ok g -> fdata g = fdata f ->
  returned (readNextBlock (set_file s (Some g)) r) = returned (readNextBlock s r)
  /\ _currentBlock (snd (readNextBlock (set_file s (Some g)) r))
     = _currentBlock (snd (readNextBlock s r)).
Proof.
  intros Hf Hokf Hokg Hdata.
  destruct (Z.lt_ge_cases (_currentBlock s)
              (totalBlocks (catalogue_at (_catalogue s) (_currentIndex s)))) as [Hlt | Hge].
  - rewrite (readNextBlock_open (set_file s (Some g)) g r eq_refl Hokg Hlt).
    rewrite (readNextBlock_open s f r Hf Hokf Hlt).
    cbn [set_file _currentBlock _catalogue _currentIndex].
    rewrite (seek_same_data g f _ Hdata).
    destruct (seek f (u32 (_currentBlock s * VSENSOR_BLOCK_SIZE))) as [f1 |];
      [| split; reflexivity].
    destruct (deliver f1 _ _ r) as [[[] r1] f']; split; reflexivity.
  - unfold readNextBlock. rewrite Hf. cbn [set_file _currentFile _catalogue _currentIndex _currentBlock].
    destruct (Z.leb_spec (totalBlocks (catalogue_at (_catalogue s) (_currentIndex s)))
                (_currentBlock s)); [| lia].
    split; reflexivity.
Qed.

(** C3, amended. With no stream open, with a stream whose cursor has
    reached the block count, and with a stream whose file has no byte
    at the offset of the cursor (a read that fails in mid-stream),
    [readNextBlock] returns [false] and hands the result back
    untouched, with the cursor where it was: the return value does not
    tell end of data from the two failures.  In the first two cases the
    whole reader is untouched.  [isImageOpen] is [false] in the first
    case and [true] in the other two. *)
Theorem no_stream_and_end_of_data_both_false
    (s1 s2 s3 : StorageReader) (f3 : File) (result : BlockReadResult) :
  _currentFile s1 = None ->
  at_end_of_data s2 ->
  _currentFile s3 = Some f3 ->
  file_ok f3 ->
  _currentBlock s3 < totalBlocks (catalogue_at (_catalogue s3) (_currentIndex s3)) ->
  fsize (fdata f3) <= u32 (_currentBlock s3 * VSENSOR_BLOCK_SIZE) ->
  readNextBlock s1 result = (false, result, s1)
  /\ readNextBlock s2 result = (false, result, s2)
  /\ returned (readNextBlock s1 result) = returned (readNextBlock s2 result)
  /\ isImageOpen s1 = false
  /\ isImageOpen s2 = true
  /\ returned (readNextBlock s3 result) = (false, result)
  /\ returned (readNextBlock s3 result) = returned (readNextBlock s2 result)
  /\ _currentBlock (snd (readNextBlock s3 result)) = _currentBlock s3
  /\ isImageOpen s3 = true
  /\ isImageOpen (snd (readNextBlock s3 result)) = true.
Proof.
  intros Hclosed [[f Hopen] Hend] Hf3 Hok3 Hlt3 Hshort.
  assert (R1 : readNextBlock s1 result = (false, result, s1)).
  { unfold readNextBlock. rewrite Hclosed. reflexivity. }
  assert (R2 : readNextBlock s2 result = (false, result, s2)).
  { unfold readNextBlock. rewrite Hopen.
    destruct (Z.leb_spec (totalBlocks (catalogue_at (_catalogue s2) (_currentIndex s2)))
                (_currentBlock s2)) as [_ | Hlt]; [reflexivity | lia]. }
  assert (R3 : exists g, readNextBlock s3 result = (false, result, set_file s3 (Some g))).
  { rewrite (readNextBlock_open s3 f3 result Hf3 Hok3 Hlt3).
    set (off := u32 (_currentBlock s3 * VSENSOR_BLOCK_SIZE)) in *.
    destruct (seek f3 off) as [f1 |] eqn:Hseek; [| eauto].
    apply seek_inv in Hseek as [-> Hle].
    set (f1 := {| fdata := fdata f3; fpos := off |}).
    assert (Hnone : fst (read f1 VSENSOR_BLOCK_SIZE) = []).
    { rewrite read_fst. unfold available, VSENSOR_BLOCK_SIZE. cbn [f1 fdata fpos].
      replace (Z.to_nat (Z.min 512 (Z.max 0 (fsize (fdata f3) - off)))) with 0%nat by lia.
      reflexivity. }
    destruct (deliver_cases f1 (_currentBlock s3)
                (totalBlocks (catalogue_at (_catalogue s3) (_currentIndex s3))) result)
      as [[_ ->] | [Hne _]]; [eauto | contradiction]. }
  destruct R3 as [g R3].
  assert (O1 : isImageOpen s1 = false).
  { unfold isImageOpen. rewrite Hclosed. apply bool_decide_eq_false.
    intros [x Hx]. discriminate. }
  assert (O2 : isImageOpen s2 = true).
  { unfold isImageOpen. rewrite Hopen. apply bool_decide_eq_true. eauto. }
  assert (O3 : isImageOpen s3 = true).
  { unfold isImageOpen. rewrite Hf3. apply bool_decide_eq_true. eauto. }
  rewrite R1, R2, R3.
  split; [reflexivity |]. split; [reflexivity |]. split; [reflexivity |].
  split; [exact O1 |]. split; [exact O2 |].
  split; [reflexivity |]. split; [reflexivity |]. split; [reflexivity |].
  split; [exact O3 | reflexivity].
Qed.

Lemma no_stream_and_end_of_data_both_false_witness :
  readNextBlock Examples.mounted_reader Examples.blank
    = (false, Examples.blank, Examples.mounted_reader)
  /\ readNextBlock Examples.drained_reader Examples.blank
    = (false, Examples.blank, Examples.drained_reader)
  /\ returned (readNextBlock MoreExamples.cut_short_reader Examples.blank)
     = (false, Examples.blank)
  /\ isImageOpen MoreExamples.cut_short_reader = true.
Proof.
  pose proof (no_stream_and_end_of_data_both_false
                Examples.mounted_reader Examples.drained_reader
                MoreExamples.cut_short_reader
                {| fdata := file_of_bytes Examples.abc_bytes; fpos := 3 |}
                Examples.blank) as H.
  destruct H as (H1 & H2 & _ & _ & _ & H3 & _ & _ & H4 & _).
  - reflexivity.
  - split; [vm_compute; eauto | vm_compute; discriminate].
  - reflexivity.
  - unfold file_ok. cbn. lia.
  - vm_compute. reflexivity.
  - vm_compute. discriminate.
  - split; [exact H1 |]. split; [exact H2 |]. split; [exact H3 | exact H4].
Defined.

(** C2. Random-access equivalence and cursor framing: with a stream
    open and [k] below the block count, [readBlock k] succeeds exactly
    when [readNextBlock] does with the cursor at [k] (wherever the
    handle of the same file then stands, whatever buffer it is given),
    and then hands back the same payload bytes, length, block index and
    last-block flag (the very same result when given the same buffer);
    [readBlock] changes nothing in the reader but the position of the
    file handle, so the cursor is as before, and the next
    [readNextBlock] hands back what it would have handed back, and moves
    the cursor as it would have, without the [readBlock] in between. *)
Theorem readBlock_matches_sequential
    (s : StorageReader) (f : File) (k : Z) (r : BlockReadResult) :
  _currentFile s = Some f ->
  file_ok f ->
  0 <= k < totalBlocks (catalogue_at (_catalogue s) (_currentIndex s)) ->
  let '(ok1, r1, s1) := readBlock s k r in
  (forall (g : File) (r' : BlockReadResult),
      file_ok g -> fdata g = fdata f ->
      let '(ok2, r2, _) := readNextBlock (set_file (set_block s k) (Some g)) r' in
      ok1 = ok2
      /\ (ok1 = true ->
            payload r1 = payload r2 /\ length r1 = length r2
            /\ blockIndex r1 = k /\ blockIndex r2 = k /\ isLast r1 = isLast r2)
      /\ (r = r' -> r1 = r2))
  /\ s1 = set_file s (_currentFile s1)
  /\ _currentBlock s1 = _currentBlock s
  /\ (forall r'' : BlockReadResult,
         returned (readNextBlock s1 r'') = returned (readNextBlock s r'')
         /\ _currentBlock (snd (readNextBlock s1 r''))
            = _currentBlock (snd (readNextBlock s r''))).
Proof.
  intros Hf Hok [Hk0 Hk].
  rewrite (readBlock_open s f k r Hf Hk).
  set (total := totalBlocks (catalogue_at (_catalogue s) (_currentIndex s))).
  assert (Hseq : forall g r', file_ok g -> fdata g = fdata f ->
            readNextBlock (set_file (set_block s k) (Some g)) r' =
              match seek f (u32 (k * VSENSOR_BLOCK_SIZE)) with
              | None => (false, r', set_file (set_file (set_block s k) (Some g)) (Some g))
              | Some f1 =>
                  let '(ok, r2, f') := deliver f1 k total r' in
                  if ok
                  then (true, r2,
                        set_block (set_file (set_file (set_block s k) (Some g)) (Some f'))
                                  (u32 (k + 1)))
                  else (false, r2, set_file (set_file (set_block s k) (Some g)) (Some f'))
              end).
  { intros g r' Hokg Hg.
    rewrite (readNextBlock_open (set_file (set_block s k) (Some g)) g r' eq_refl Hokg Hk).
    cbn [set_file set_block _currentBlock _catalogue _currentIndex].
    rewrite (seek_same_data g f _ Hg). reflexivity. }
  assert (Hself : s = set_file s (_currentFile s)) by (destruct s; reflexivity).
  destruct (seek f (u32 (k * VSENSOR_BLOCK_SIZE))) as [f1 |] eqn:Hs.
  - assert (Hok1 : file_ok f1).
    { apply seek_inv in Hs as [-> Hle]. unfold file_ok. cbn [fdata fpos].
      pose proof (u32_range (k * VSENSOR_BLOCK_SIZE)). lia. }
    assert (Hd1 : fdata f1 = fdata f) by (apply seek_inv in Hs as [-> _]; reflexivity).
    pose proof (deliver_file_ok f1 k total r Hok1) as Hok2.
    assert (Hd2 : fdata (snd (deliver f1 k total r)) = fdata f).
    { destruct (deliver_cases f1 k total r) as [[_ ->] | [_ ->]]; exact Hd1. }
    assert (Hnext : forall f' r'',
               f' = snd (deliver f1 k total r) ->
               returned (readNextBlock (set_file s (Some f')) r'') = returned (readNextBlock s r'')
               /\ _currentBlock (snd (readNextBlock (set_file s (Some f')) r''))
                  = _currentBlock (snd (readNextBlock s r''))).
    { intros f' r'' ->. apply (readNextBlock_any_position s f); assumption. }
    destruct (deliver_cases f1 k total r) as [[Hb E1] | [Hb E1]];
      rewrite E1 in Hnext |- *; cbn [snd] in Hnext.
    + split; [| split; [reflexivity |]; split; [reflexivity |];
                 intros r''; apply Hnext; reflexivity].
      intros g r' Hokg Hg. rewrite (Hseq g r' Hokg Hg).
      destruct (deliver_cases f1 k total r') as [[_ E2] | [Hb' _]]; [| contradiction].
      rewrite E2. split; [reflexivity |]. split; [discriminate | exact id].
    + split; [| split; [reflexivity |]; split; [reflexivity |];
                 intros r''; apply Hnext; reflexivity].
      intros g r' Hokg Hg. rewrite (Hseq g r' Hokg Hg).
      destruct (deliver_cases f1 k total r') as [[Hb' _] | [_ E2]]; [contradiction |].
      rewrite E2. split; [reflexivity |]. split; [| intros ->; reflexivity].
      intros _. unfold payload. cbn [length data blockIndex isLast].
      rewrite !Nat2Z.id, !take_app_length. repeat split; reflexivity.
  - split; [| split; [exact Hself |]; split; [reflexivity |];
               intros r''; split; reflexivity].
    intros g r' Hokg Hg. rewrite (Hseq g r' Hokg Hg).
    split; [reflexivity |]. split; [discriminate | exact id].
Qed.

Lemma readBlock_matches_sequential_witness :
  let '(ok1, r1, s1) := readBlock Examples.drained_reader 0 Examples.blank in
  ok1 = true
  /\ payload r1 = Examples.abc_bytes
  /\ _currentBlock s1 = 1
  /\ payload (snd (fst (readNextBlock Examples.open_reader Examples.blank)))
     = Examples.abc_bytes.
Proof.
  pose proof (readBlock_matches_sequential Examples.drained_reader
                {| fdata := file_of_bytes Examples.abc_bytes; fpos := 3 |}
                0 Examples.blank) as H.
  assert (H3 : file_ok {| fdata := file_of_bytes Examples.abc_bytes; fpos := 3 |})
    by (unfold file_ok; cbn; lia).
  assert (H0 : file_ok {| fdata := file_of_bytes Examples.abc_bytes; fpos := 0 |})
    by (unfold file_ok; cbn; lia).
  specialize (H eq_refl H3 (conj (Z.le_refl 0) eq_refl)).
  destruct (readBlock Examples.drained_reader 0 Examples.blank) as [[ok1 r1] s1].
  destruct H as (Hseq & _ & Hcur & _).
  specialize (Hseq {| fdata := file_of_bytes Examples.abc_bytes; fpos := 0 |}
                Examples.blank H0 eq_refl).
  change (readNextBlock _ Examples.blank)
    with (readNextBlock Examples.open_reader Examples.blank) in Hseq.
  destruct (readNextBlock Examples.open_reader Examples.blank) as [[ok2 r2] s2] eqn:E.
  destruct Hseq as (Hok & Hpay & _).
  assert (E2 : ok2 = true /\ payload r2 = Examples.abc_bytes).
  { vm_compute in E. injection E as <- <- _. split; reflexivity. }
  destruct E2 as [-> Hp2]. subst ok1.
  destruct (Hpay eq_refl) as (Hp & _).
  split; [reflexivity |]. split; [rewrite Hp; exact Hp2 |].
  split; [exact Hcur | exact Hp2].
Defined.

(** ** Streaming a whole file *)

(** Streaming from cursor [c]: when the handle is on a file of the
    catalogued size and the catalogued block count is the ceiling of
    that size over the block size, the remaining [totalBlocks - c] calls
    all succeed, hand back what is left of the file, and leave the
    stream at end of data. *)
Lemma read_all_from_cursor (n : nat) :
  forall (s : StorageReader) (r : BlockReadResult) (f : File),
    let e := catalogue_at (_catalogue s) (_currentIndex s) in
    _currentFile s = Some f ->
    file_ok f ->
    fsize (fdata f) = fileSize e ->
    fileSize e < 2 ^ 32 ->
    fileSize e <= totalBlocks e * VSENSOR_BLOCK_SIZE < fileSize e + VSENSOR_BLOCK_SIZE ->
    0 <= _currentBlock s ->
    Z.of_nat n = totalBlocks e - _currentBlock s ->
    List.length (fst (read_all n s r)) = n
    /\ total_length (fst (read_all n s r))
       = fileSize e - Z.min (_currentBlock s * VSENSOR_BLOCK_SIZE) (fileSize e)
    /\ at_end_of_data (snd (read_all n s r)).
Proof.
  unfold VSENSOR_BLOCK_SIZE.
  induction n as [| n IH]; intros s r f Hf Hok Hsize H32 Hceil Hc Hn;
    set (e := catalogue_at (_catalogue s) (_currentIndex s)) in *.
  - cbn. split; [reflexivity |]. split; [lia |].
    split; [rewrite Hf; eauto | fold e; lia].
  - cbn [read_all].
    assert (Hlt : _currentBlock s < totalBlocks e) by lia.
    rewrite (readNextBlock_open s f r Hf Hok Hlt). fold e.
    unfold VSENSOR_BLOCK_SIZE.
    rewrite (u32_small (_currentBlock s * 512)) by lia.
    unfold seek. destruct (Z.leb_spec (_currentBlock s * 512) (fsize (fdata f))); [| lia].
    set (f1 := {| fdata := fdata f; fpos := _currentBlock s * 512 |}).
    assert (Hlen : Z.of_nat (List.length (fst (read f1 VSENSOR_BLOCK_SIZE)))
                   = Z.min 512 (fileSize e - _currentBlock s * 512)).
    { rewrite read_fst, length_bytes_from. unfold available, VSENSOR_BLOCK_SIZE.
      cbn [f1 fdata fpos]. lia. }
    destruct (deliver_cases f1 (_currentBlock s) (totalBlocks e) r) as [[Hb E] | [Hb E]].
    + rewrite Hb in Hlen. cbn in Hlen. lia.
    + rewrite E. clear E.
      set (r1 := {| data := _; length := _; blockIndex := _; isLast := _ |}).
      set (s1 := set_block _ _).
      specialize (IH s1 r1 (snd (read f1 VSENSOR_BLOCK_SIZE))).
      cbn [s1 set_block set_file _catalogue _currentIndex _currentFile _currentBlock] in IH.
      fold e in IH. rewrite u32_small in IH by lia.
      destruct IH as (IHlen & IHsum & IHend).
      * reflexivity.
      * unfold file_ok, read, available, VSENSOR_BLOCK_SIZE. cbn [snd f1 fdata fpos]. lia.
      * exact Hsize.
      * exact H32.
      * unfold VSENSOR_BLOCK_SIZE. exact Hceil.
      * lia.
      * lia.
      * destruct (read_all n s1 r1) as [lens s']. cbn [fst snd] in *.
        split; [cbn [List.length]; lia |]. split; [| exact IHend].
        cbn [total_length fold_right]. fold (total_length lens).
        rewrite IHsum. cbn [r1 length]. rewrite Hlen. lia.
Qed.

(** After a successful [openImage], on an entry whose block count is
    the ceiling of its size and whose file still has the catalogued
    size: exactly [totalBlocks] calls succeed, their lengths add up to
    [fileSize], and the stream is then at end of data. *)
Lemma read_all_after_open
    (sd : Medium) (s s1 : StorageReader) (index : Z) (r : BlockReadResult) (d : FileData) :
  let e := catalogue_at (_catalogue s) index in
  openImage sd s index = (true, s1) ->
  files sd !! filename e = Some d ->
  fsize d = fileSize e ->
  0 <= fileSize e < 2 ^ 32 ->
  fileSize e <= totalBlocks e * VSENSOR_BLOCK_SIZE < fileSize e + VSENSOR_BLOCK_SIZE ->
  let n := Z.to_nat (totalBlocks e) in
  List.length (fst (read_all n s1 r)) = n
  /\ total_length (fst (read_all n s1 r)) = fileSize e
  /\ at_end_of_data (snd (read_all n s1 r)).
Proof.
  intros e Hopen Hfile Hsize Hrange Hceil n.
  unfold openImage in Hopen.
  destruct (negb (_mounted s) || (_imageCount s <=? index)); [discriminate |].
  assert (Hcat : _catalogue (closeImage s) = _catalogue s).
  { unfold closeImage. destruct (_currentFile s); reflexivity. }
  rewrite Hcat in Hopen. fold e in Hopen.
  unfold SD_open in Hopen. rewrite Hfile in Hopen.
  injection Hopen as <-.
  pose proof (read_all_from_cursor n
                {| _mounted := _mounted (closeImage s);
                   _imageCount := _imageCount (closeImage s);
                   _catalogue := _catalogue (closeImage s);
                   _currentFile := Some {| fdata := d; fpos := 0 |};
                   _currentIndex := index; _currentBlock := 0 |}
                r {| fdata := d; fpos := 0 |}) as H.
  cbn [_catalogue _currentIndex _currentFile _currentBlock fdata] in H.
  rewrite Hcat in H. fold e in H.
  unfold VSENSOR_BLOCK_SIZE in *.
  destruct H as (Hlen & Hsum & Hend);
    try assumption; try reflexivity; try lia.
  - unfold file_ok. cbn. lia.
  - split; [exact Hlen |]. split; [| exact Hend].
    rewrite Hsum. lia.
Qed.

(** C1. Sequential read exhaustiveness, at the largest file size of a
    FAT32 volume: the card mounts, the file is catalogued with
    [fileSize = 4294967295] and opens with that size, yet the first
    [readNextBlock] already returns [false] with the result and the
    reader untouched, so no block is handed back and the lengths read
    add up to 0. *)
Theorem stream_largest_file_no_blocks :
  let '(ok, _, s) := begin Examples.huge_sd Examples.bus_off StorageReader_new in
  let '(opened, s1) := openImage Examples.huge_sd s 0 in
  let e := catalogue_at (_catalogue s1) (_currentIndex s1) in
  ok = true
  /\ opened = true
  /\ fileSize e = 4294967295
  /\ option_map (fun f => fsize (fdata f)) (_currentFile s1) = Some (fileSize e)
  /\ readNextBlock s1 Examples.blank = (false, Examples.blank, s1)
  /\ total_length (fst (read_all 1 s1 Examples.blank)) = 0.
Proof. vm_compute. repeat split; reflexivity. Qed.

(** ** The reader invariant

    [reader_ok] holds of the constructed reader and is kept by every
    member function, so the size and handle conditions that the
    properties above ask of a reader hold of every reader a program can
    reach. *)

Lemma reader_ok_new : reader_ok StorageReader_new.
Proof.
  unfold reader_ok, VSENSOR_MAX_IMAGES. cbn.
  split; [reflexivity |]. split; [lia | discriminate].
Qed.

Lemma reader_ok_closeImage s : reader_ok s -> reader_ok (closeImage s).
Proof.
  intros (Hlen & Hcount & Hfile). unfold closeImage.
  destruct (_currentFile s) eqn:E.
  - split; [exact Hlen |]. split; [exact Hcount | discriminate].
  - split; [exact Hlen |]. split; [exact Hcount |].
    intros f Hf. rewrite E in Hf. discriminate.
Qed.

Lemma reader_ok_end bus s : reader_ok s -> reader_ok (snd (end_ bus s)).
Proof.
  intros H. apply reader_ok_closeImage in H. destruct H as (Hlen & Hcount & Hfile).
  unfold end_. destruct (_mounted (closeImage s)); cbn [snd].
  - split; [exact Hlen |]. split; [unfold VSENSOR_MAX_IMAGES; cbn; lia | exact Hfile].
  - split; [exact Hlen |]. split; [exact Hcount | exact Hfile].
Qed.

Lemma reader_ok_readNextBlock s r :
  reader_ok s -> reader_ok (snd (readNextBlock s r)).
Proof.
  intros Hs. pose proof Hs as (Hlen & Hcount & Hfile).
  destruct (_currentFile s) as [f |] eqn:Hf.
  - specialize (Hfile f eq_refl).
    destruct (Z.lt_ge_cases (_currentBlock s)
                (totalBlocks (catalogue_at (_catalogue s) (_currentIndex s)))) as [Hlt | Hge].
    + rewrite (readNextBlock_open s f r Hf Hfile Hlt).
      destruct (seek f _) as [f1 |] eqn:Hseek.
      * assert (Hok1 : file_ok f1).
        { apply seek_inv in Hseek as [-> Hle]. unfold file_ok. cbn [fdata fpos].
          pose proof (u32_range (_currentBlock s * VSENSOR_BLOCK_SIZE)). lia. }
        pose proof (deliver_file_ok f1 (_currentBlock s)
                      (totalBlocks (catalogue_at (_catalogue s) (_currentIndex s))) r Hok1) as Hok2.
        destruct (deliver f1 _ _ r) as [[[] r1] f']; cbn [snd] in *;
          (split; [exact Hlen |]; split; [exact Hcount |]; intros g [= <-]; exact Hok2).
      * cbn [snd]. split; [exact Hlen |]. split; [exact Hcount |].
        intros g [= <-]. exact Hfile.
    + unfold readNextBlock. rewrite Hf.
      destruct (Z.leb_spec (totalBlocks (catalogue_at (_catalogue s) (_currentIndex s)))
                  (_currentBlock s)); [exact Hs | lia].
  - unfold readNextBlock. rewrite Hf. exact Hs.
Qed.

Lemma reader_ok_readBlock s k r :
  reader_ok s -> reader_ok (snd (readBlock s k r)).
Proof.
  intros Hs. pose proof Hs as (Hlen & Hcount & Hfile).
  destruct (_currentFile s) as [f |] eqn:Hf.
  - destruct (Z.lt_ge_cases k
                (totalBlocks (catalogue_at (_catalogue s) (_currentIndex s)))) as [Hlt | Hge].
    + rewrite (readBlock_open s f k r Hf Hlt).
      destruct (seek f _) as [f1 |] eqn:Hseek; [| exact Hs].
      assert (Hok1 : file_ok f1).
      { apply seek_inv in Hseek as [-> Hle]. unfold file_ok. cbn [fdata fpos].
        pose proof (u32_range (k * VSENSOR_BLOCK_SIZE)). lia. }
      pose proof (deliver_file_ok f1 k
                    (totalBlocks (catalogue_at (_catalogue s) (_currentIndex s))) r Hok1) as Hok2.
      destruct (deliver f1 _ _ r) as [[ok r1] f']; cbn [snd] in *.
      split; [exact Hlen |]. split; [exact Hcount |]. intros g [= <-]. exact Hok2.
    + unfold readBlock. rewrite Hf.
      destruct (Z.leb_spec (totalBlocks (catalogue_at (_catalogue s) (_currentIndex s))) k);
        [exact Hs | lia].
  - unfold readBlock. rewrite Hf. exact Hs.
Qed.

Section OnAMedium.

Variable sd : Medium.
Hypothesis sd_ok : medium_ok sd.

Lemma reader_ok_scanDirectory s :
  reader_ok s -> reader_ok (snd (_scanDirectory sd s)).
Proof.
  intros (Hlen & Hcount & Hfile).
  split; [| split; [apply scanDirectory_count |]].
  - destruct (images_dir sd) as [entries |] eqn:Hdir.
    + rewrite (scanDirectory_spec sd s entries Hdir Hlen). cbn [snd _catalogue].
      rewrite length_app, length_map, length_drop, Hlen.
      pose proof (length_take_le (List.filter accepted entries) (Z.to_nat VSENSOR_MAX_IMAGES)).
      lia.
    + unfold _scanDirectory. rewrite Hdir. exact Hlen.
  - destruct (images_dir sd) as [entries |] eqn:Hdir.
    + rewrite (scanDirectory_spec sd s entries Hdir Hlen). exact Hfile.
    + unfold _scanDirectory. rewrite Hdir. exact Hfile.
Qed.

Lemma reader_ok_begin bus s :
  reader_ok s -> reader_ok (snd (begin sd bus s)).
Proof.
  intros Hs. unfold begin.
  destruct (_mounted s); [exact Hs |].
  destruct (negb (mount_ok sd)); [exact Hs |].
  destruct (card_type sd =? CARD_NONE); [exact Hs |].
  pose proof (reader_ok_scanDirectory (set_mounted s true) Hs) as H.
  destruct (_scanDirectory sd (set_mounted s true)) as [ok s']. exact H.
Qed.

Lemma reader_ok_openImage s index :
  reader_ok s -> reader_ok (snd (openImage sd s index)).
Proof.
  intros Hs. unfold openImage.
  destruct (negb (_mounted s) || (_imageCount s <=? index)); [exact Hs |].
  apply reader_ok_closeImage in Hs. destruct Hs as (Hlen & Hcount & Hfile).
  unfold SD_open.
  destruct (files sd !! filename (catalogue_at (_catalogue (closeImage s)) index))
    as [d |] eqn:Hd; cbn [snd].
  - split; [exact Hlen |]. split; [exact Hcount |].
    intros g [= <-]. unfold file_ok. cbn [fdata fpos].
    pose proof (sd_ok _ _ Hd). lia.
  - split; [exact Hlen |]. split; [exact Hcount | discriminate].
Qed.

End OnAMedium.

(** ** Power and mount *)

(** The scan writes the image count and the catalogue only. *)
Lemma scan_loop_frame (pending : list DirEntry) :
  forall s : StorageReader,
    _mounted (scan_loop pending s) = _mounted s
    /\ _currentFile (scan_loop pending s) = _currentFile s
    /\ _currentIndex (scan_loop pending s) = _currentIndex s
    /\ _currentBlock (scan_loop pending s) = _currentBlock s.
Proof.
  induction pending as [| e rest IH]; intros s; cbn [scan_loop];
    destruct (_imageCount s <? VSENSOR_MAX_IMAGES); try (repeat split; reflexivity).
  destruct (accepted e); [| apply IH].
  destruct (IH (add_entry s e)) as (H1 & H2 & H3 & H4).
  rewrite H1, H2, H3, H4. repeat split; reflexivity.
Qed.

Lemma scanDirectory_frame (sd : Medium) (s : StorageReader) :
  _mounted (snd (_scanDirectory sd s)) = _mounted s
  /\ _currentFile (snd (_scanDirectory sd s)) = _currentFile s
  /\ _currentIndex (snd (_scanDirectory sd s)) = _currentIndex s
  /\ _currentBlock (snd (_scanDirectory sd s)) = _currentBlock s.
Proof.
  unfold _scanDirectory. destruct (images_dir sd) as [entries |]; cbn [snd].
  - destruct (scan_loop_frame entries
                {| _mounted := _mounted s; _imageCount := 0;
                   _catalogue := _catalogue s; _currentFile := _currentFile s;
                   _currentIndex := _currentIndex s; _currentBlock := _currentBlock s |})
      as (H1 & H2 & H3 & H4).
    rewrite H1, H2, H3, H4. repeat split; reflexivity.
  - repeat split; reflexivity.
Qed.

Lemma closeImage_mounted s : _mounted (closeImage s) = _mounted s.
Proof. unfold closeImage. destruct (_currentFile s); reflexivity. Qed.

(** Bus and mounted flag across [begin] and [end] (X1 below). *)
Lemma begin_end_power
    (sd : Medium) (bus : Bus) (s : StorageReader) :
  power_ok bus s ->
  power_ok (snd (fst (begin sd bus s))) (snd (begin sd bus s))
  /\ power_ok (fst (end_ bus s)) (snd (end_ bus s))
  /\ fst (end_ bus s) = {| spi_active := false; sd_active := false |}
  /\ _mounted (snd (end_ bus s)) = false.
Proof.
  intros [Hspi Hsd]. split; [| split; [| split]].
  - unfold begin. destruct (_mounted s) eqn:M; [split; cbn; congruence |].
    destruct (mount_ok sd); cbn [negb]; [| split; cbn; congruence].
    destruct (card_type sd =? CARD_NONE); [split; cbn; congruence |].
    pose proof (scanDirectory_frame sd (set_mounted s true)) as (Hm & _).
    destruct (_scanDirectory sd (set_mounted s true)) as [ok s']. cbn [fst snd] in *.
    split; cbn; rewrite Hm; reflexivity.
  - unfold end_. rewrite closeImage_mounted.
    destruct (_mounted s) eqn:M; cbn [fst snd].
    + split; reflexivity.
    + unfold power_ok. rewrite closeImage_mounted. split; congruence.
  - unfold end_. rewrite closeImage_mounted.
    destruct (_mounted s) eqn:M; cbn [fst]; [reflexivity |].
    destruct bus as [spi sdv]; cbn in *; congruence.
  - unfold end_. rewrite closeImage_mounted.
    destruct (_mounted s) eqn:M; cbn [snd]; [reflexivity |].
    rewrite closeImage_mounted. exact M.
Qed.

(** X1. [begin] and [end] keep the bus in step with the mounted flag:
    if the SPI bus and the SD driver are active exactly when the reader
    is mounted, the same holds after either call, whatever the card
    does; and after [end] both are off and the reader is unmounted. *)
Theorem begin_end_keep_power
    (sd : Medium) (bus : Bus) (s : StorageReader) :
  power_ok bus s ->
  power_ok (snd (fst (begin sd bus s))) (snd (begin sd bus s))
  /\ power_ok (fst (end_ bus s)) (snd (end_ bus s))
  /\ fst (end_ bus s) = {| spi_active := false; sd_active := false |}
  /\ _mounted (snd (end_ bus s)) = false.
Proof. exact (begin_end_power sd bus s). Qed.

Lemma begin_end_keep_power_witness :
  power_ok (snd (fst (begin MoreExamples.bare_sd Examples.bus_off StorageReader_new)))
           (snd (begin MoreExamples.bare_sd Examples.bus_off StorageReader_new))
  /\ spi_active (snd (fst (begin MoreExamples.bare_sd Examples.bus_off StorageReader_new)))
     = true.
Proof.
  split; [| reflexivity].
  apply (begin_end_keep_power MoreExamples.bare_sd Examples.bus_off StorageReader_new).
  split; reflexivity.
Defined.

(** [begin] on an unmounted reader (X2 below). *)
Lemma begin_unmounted (sd : Medium) (bus : Bus) (s : StorageReader) :
  _mounted s = false ->
  List.length (_catalogue s) = Z.to_nat VSENSOR_MAX_IMAGES ->
  let '(ok, _, s1) := begin sd bus s in
  (ok = true <->
     mount_ok sd = true /\ card_type sd <> CARD_NONE
     /\ exists entries, images_dir sd = Some entries
                        /\ List.filter accepted entries <> [])
  /\ (_mounted s1 = true <-> mount_ok sd = true /\ card_type sd <> CARD_NONE)
  /\ (ok = true -> 1 <= imageCount s1 <= VSENSOR_MAX_IMAGES)
  /\ (ok = false -> _mounted s1 = true -> imageCount s1 = 0)
  /\ (_mounted s1 = false -> s1 = s).
Proof.
  intros Hm Hlen. unfold begin. rewrite Hm.
  destruct (mount_ok sd); cbn [negb].
  2:{ rewrite Hm.
      split; [split; [discriminate | intros (H & _); discriminate] |].
      split; [split; [discriminate | intros (H & _); discriminate] |].
      split; [discriminate |]. split; [discriminate | reflexivity]. }
  destruct (Z.eqb_spec (card_type sd) CARD_NONE) as [Hc | Hc].
  { rewrite Hm.
    split; [split; [discriminate | intros (_ & H & _); contradiction] |].
    split; [split; [discriminate | intros (_ & H); contradiction] |].
    split; [discriminate |]. split; [discriminate | reflexivity]. }
  destruct (images_dir sd) as [entries |] eqn:Hdir.
  - rewrite (scanDirectory_spec sd (set_mounted s true) entries Hdir Hlen).
    cbn [imageCount _imageCount _mounted set_mounted].
    set (acc := take (Z.to_nat VSENSOR_MAX_IMAGES) (List.filter accepted entries)).
    assert (Hacc : (List.length acc <= Z.to_nat VSENSOR_MAX_IMAGES)%nat)
      by apply length_take_le.
    assert (Hnil : acc = [] <-> List.filter accepted entries = []).
    { unfold acc, VSENSOR_MAX_IMAGES. change (Z.to_nat 32) with 32%nat.
      destruct (List.filter accepted entries); cbn [take]; split; intros; congruence. }
    unfold VSENSOR_MAX_IMAGES in *.
    split; [| split; [tauto |]; split; [| split; [| discriminate]]].
    + rewrite Z.ltb_lt. split.
      * intros Hpos. split; [reflexivity |]. split; [exact Hc |].
        exists entries. split; [reflexivity |].
        intros E. apply Hnil in E. rewrite E in Hpos. cbn in Hpos. lia.
      * intros (_ & _ & entries' & [= <-] & Hne).
        destruct acc; [exfalso; apply Hne, Hnil; reflexivity | cbn; lia].
    + rewrite Z.ltb_lt. lia.
    + rewrite Z.ltb_ge. lia.
  - unfold _scanDirectory. rewrite Hdir. cbn.
    split; [| split; [tauto |]; split; [discriminate |]; split; [reflexivity | discriminate]].
    split; [discriminate |]. intros (_ & _ & entries & [=] & _).
Qed.

(** X2. What [begin] on an unmounted reader comes to, read off the
    card: it returns [true] exactly when the card mounts, a card is
    present and the image directory opens with at least one eligible
    file; it leaves the reader mounted exactly when the card mounts and
    is present; a [true] comes with between 1 and [VSENSOR_MAX_IMAGES]
    images, a [false] on a mounted reader with none, and a reader left
    unmounted is left as it was. *)
Theorem begin_outcome (sd : Medium) (bus : Bus) (s : StorageReader) :
  _mounted s = false ->
  List.length (_catalogue s) = Z.to_nat VSENSOR_MAX_IMAGES ->
  let '(ok, _, s1) := begin sd bus s in
  (ok = true <->
     mount_ok sd = true /\ card_type sd <> CARD_NONE
     /\ exists entries, images_dir sd = Some entries
                        /\ List.filter accepted entries <> [])
  /\ (_mounted s1 = true <-> mount_ok sd = true /\ card_type sd <> CARD_NONE)
  /\ (ok = true -> 1 <= imageCount s1 <= VSENSOR_MAX_IMAGES)
  /\ (ok = false -> _mounted s1 = true -> imageCount s1 = 0)
  /\ (_mounted s1 = false -> s1 = s).
Proof. exact (begin_unmounted sd bus s). Qed.

Lemma begin_outcome_witness :
  let '(ok, _, s1) := begin MoreExamples.two_sd Examples.bus_off StorageReader_new in
  ok = true /\ 1 <= imageCount s1 <= VSENSOR_MAX_IMAGES.
Proof.
  pose proof (begin_outcome MoreExamples.two_sd Examples.bus_off StorageReader_new
                eq_refl eq_refl) as H.
  destruct (begin MoreExamples.two_sd Examples.bus_off StorageReader_new) as [[ok b1] s1].
  destruct H as (Hok & _ & Hcount & _).
  assert (E : ok = true).
  { apply Hok. split; [reflexivity |]. split; [vm_compute; discriminate |].
    eexists. split; [reflexivity |]. vm_compute. discriminate. }
  split; [exact E | exact (Hcount E)].
Defined.

(** X3. After [end] nothing is served any more: for a reader whose
    image count is 0 whenever it is unmounted, and any index and block
    number of the C++ types, [getImageInfo], [openImage],
    [readNextBlock] and [readBlock] return [false] and change nothing,
    [computeChecksum] returns 0, no stream is open and the image count
    is 0, although the catalogue array still holds the old entries. *)
Theorem nothing_served_after_end
    (sd : Medium) (bus : Bus) (s : StorageReader) (index k : Z)
    (info : ImageInfo) (r : BlockReadResult) :
  (_mounted s = false -> _imageCount s = 0) ->
  0 <= index ->
  let s1 := snd (end_ bus s) in
  getImageInfo s1 index info = (false, info)
  /\ openImage sd s1 index = (false, s1)
  /\ computeChecksum sd s1 index = 0
  /\ readNextBlock s1 r = (false, r, s1)
  /\ readBlock s1 k r = (false, r, s1)
  /\ isImageOpen s1 = false
  /\ imageCount s1 = 0
  /\ _catalogue s1 = _catalogue s.
Proof.
  intros Hinv Hidx s1.
  assert (Hm : _mounted s1 = false).
  { unfold s1, end_. rewrite closeImage_mounted.
    destruct (_mounted s) eqn:M; cbn [snd]; [reflexivity |].
    rewrite closeImage_mounted. exact M. }
  assert (Hf : _currentFile s1 = None).
  { unfold s1, end_. destruct (_mounted (closeImage s)); cbn [snd _currentFile];
      apply closeImage_file. }
  assert (Hc : _imageCount s1 = 0).
  { unfold s1, end_. rewrite closeImage_mounted.
    destruct (_mounted s) eqn:M; cbn [snd]; [reflexivity |].
    unfold closeImage. destruct (_currentFile s); cbn; auto. }
  assert (Hcat : _catalogue s1 = _catalogue s).
  { unfold s1, end_. destruct (_mounted (closeImage s)); cbn [snd _catalogue];
      unfold closeImage; destruct (_currentFile s); reflexivity. }
  unfold getImageInfo, openImage, computeChecksum, readNextBlock, readBlock,
    isImageOpen, imageCount.
  rewrite Hm, Hf, Hc. cbn [negb orb].
  destruct (Z.leb_spec 0 index); [| lia].
  repeat split; try reflexivity; try exact Hcat.
Qed.

Lemma nothing_served_after_end_witness :
  let s1 := snd (end_ MoreExamples.bus_on MoreExamples.ramp_reader) in
  getImageInfo s1 0 ImageInfo_zero = (false, ImageInfo_zero)
  /\ computeChecksum MoreExamples.two_sd s1 0 = 0
  /\ filename (catalogue_at (_catalogue s1) 1) = "/images/ramp.jpeg".
Proof.
  pose proof (nothing_served_after_end MoreExamples.two_sd MoreExamples.bus_on
                MoreExamples.ramp_reader 0 0 ImageInfo_zero Examples.blank) as H.
  cbn zeta in H. destruct H as (H1 & _ & H3 & _).
  - intros E. vm_compute in E. discriminate.
  - lia.
  - split; [exact H1 |]. split; [exact H3 | reflexivity].
Defined.

(** ** The catalogue after a mount *)

(** The catalogue after a mount (X4 below). *)
Lemma begin_catalogue
    (sd : Medium) (bus : Bus) (s : StorageReader) (entries : list DirEntry) :
  _mounted s = false ->
  List.length (_catalogue s) = Z.to_nat VSENSOR_MAX_IMAGES ->
  mount_ok sd = true ->
  card_type sd <> CARD_NONE ->
  images_dir sd = Some entries ->
  let s1 := snd (begin sd bus s) in
  imageCount s1
    = Z.min VSENSOR_MAX_IMAGES (Z.of_nat (List.length (List.filter accepted entries)))
  /\ (forall (i : nat) (e : DirEntry) (info : ImageInfo),
         List.filter accepted entries !! i = Some e ->
         Z.of_nat i < VSENSOR_MAX_IMAGES ->
         getImageInfo s1 (Z.of_nat i) info = (true, make_entry e)).
Proof.
  intros Hm Hlen Hok Hc Hdir s1.
  assert (E : s1 = snd (_scanDirectory sd (set_mounted s true))).
  { unfold s1, begin. rewrite Hm, Hok. cbn [negb].
    destruct (Z.eqb_spec (card_type sd) CARD_NONE); [contradiction |].
    destruct (_scanDirectory sd (set_mounted s true)); reflexivity. }
  rewrite (scanDirectory_spec sd (set_mounted s true) entries Hdir Hlen) in E.
  cbn [snd] in E. rewrite E. clear E s1.
  unfold imageCount, getImageInfo. cbn [_imageCount _catalogue].
  unfold VSENSOR_MAX_IMAGES in *.
  set (l := List.filter accepted entries).
  split; [rewrite length_take; lia |].
  intros i e info Hi Hlt.
  assert (Hil : (i < List.length l)%nat) by (apply lookup_lt_Some in Hi; exact Hi).
  destruct (Z.leb_spec (Z.of_nat (List.length (take (Z.to_nat 32) l))) (Z.of_nat i)) as [Hle | _].
  { rewrite length_take in Hle. lia. }
  f_equal. unfold catalogue_at. rewrite Nat2Z.id.
  rewrite lookup_app_l by (rewrite length_map, length_take; lia).
  rewrite list_lookup_fmap, lookup_take_lt by lia. rewrite Hi. reflexivity.
Qed.

(** X4. Lookup after a mount: when [begin] runs on an unmounted reader
    and the card mounts with its image directory, the image count is the
    number of eligible files, capped at [VSENSOR_MAX_IMAGES], and
    [getImageInfo i] hands back the entry made from the [i]-th eligible
    file of the directory listing. *)
Theorem getImageInfo_after_begin
    (sd : Medium) (bus : Bus) (s : StorageReader) (entries : list DirEntry) :
  _mounted s = false ->
  List.length (_catalogue s) = Z.to_nat VSENSOR_MAX_IMAGES ->
  mount_ok sd = true ->
  card_type sd <> CARD_NONE ->
  images_dir sd = Some entries ->
  let s1 := snd (begin sd bus s) in
  imageCount s1
    = Z.min VSENSOR_MAX_IMAGES (Z.of_nat (List.length (List.filter accepted entries)))
  /\ (forall (i : nat) (e : DirEntry) (info : ImageInfo),
         List.filter accepted entries !! i = Some e ->
         Z.of_nat i < VSENSOR_MAX_IMAGES ->
         getImageInfo s1 (Z.of_nat i) info = (true, make_entry e)).
Proof. exact (begin_catalogue sd bus s entries). Qed.

Lemma getImageInfo_after_begin_witness :
  getImageInfo MoreExamples.two_reader 1 ImageInfo_zero
  = (true, make_entry {| name := "ramp.jpeg"; isDirectory := false; size := 1030 |}).
Proof.
  pose proof (getImageInfo_after_begin MoreExamples.two_sd Examples.bus_off
                StorageReader_new MoreExamples.two_entries eq_refl eq_refl eq_refl) as H.
  specialize (H ltac:(vm_compute; discriminate) eq_refl).
  cbn zeta in H. destruct H as [_ H].
  apply (H 1%nat); [reflexivity | reflexivity].
Defined.

Lemma substring0_length (n : nat) (s : string) :
  String.length (String.substring 0 n s) = Nat.min n (String.length s).
Proof.
  revert s. induction n as [| n IH]; intros [| c r]; cbn; try reflexivity.
  rewrite IH. reflexivity.
Qed.

Lemma substring0_all (n : nat) (s : string) :
  (String.length s <= n)%nat -> String.substring 0 n s = s.
Proof.
  revert s. induction n as [| n IH]; intros [| c r]; cbn; intros H;
    try reflexivity; try lia.
  rewrite IH by lia. reflexivity.
Qed.

Lemma append_length (s t : string) :
  String.length (s +:+ t) = (String.length s + String.length t)%nat.
Proof. induction s as [| c r IH]; simpl; [reflexivity | f_equal; exact IH]. Qed.

(** The path written by [snprintf]: the directory, a slash, and the
    first 55 characters of the name. *)
Lemma make_filename_prefix (n : string) :
  make_filename n = "/images/" +:+ String.substring 0 55 n.
Proof. reflexivity. Qed.

Lemma make_filename_length (n : string) :
  String.length (make_filename n) = (8 + Nat.min 55 (String.length n))%nat.
Proof. rewrite make_filename_prefix, append_length, substring0_length. reflexivity. Qed.

Lemma make_entry_ok (e : DirEntry) : entry_ok (make_entry e).
Proof.
  unfold entry_ok. cbn [make_entry filename fileSize totalBlocks checksum].
  pose proof (u32_range (size e)) as H1.
  pose proof (u32_range (u32 (u32 (size e) + VSENSOR_BLOCK_SIZE) - 1)) as H2.
  pose proof (make_filename_length (name e)) as H3.
  unfold VSENSOR_BLOCK_SIZE in *.
  split; [exact H1 |]. split; [| split; [reflexivity | lia]].
  split; [apply Z.div_pos; lia |].
  apply Z.lt_succ_r. apply Z.div_lt_upper_bound; lia.
Qed.

(** X5. What the scan writes for one file: a size below 2^32, a block
    count of at most 8388607, a checksum of 0, and a path of at most 63
    characters.  The path is [/images/] followed by the first 55
    characters of the name: it is the file's own path for a name of up
    to 55 characters, it is 63 characters long and not the file's path
    for a longer name, and two names that agree on their first 55
    characters get the same path. *)
Theorem make_entry_facts (e e' : DirEntry) :
  entry_ok (make_entry e)
  /\ ((String.length (name e) <= 55)%nat ->
        filename (make_entry e) = "/images/" +:+ name e)
  /\ ((55 < String.length (name e))%nat ->
        String.length (filename (make_entry e)) = 63%nat
        /\ filename (make_entry e) <> "/images/" +:+ name e)
  /\ (String.substring 0 55 (name e) = String.substring 0 55 (name e') ->
        filename (make_entry e) = filename (make_entry e')).
Proof.
  pose proof (make_filename_length (name e)) as Hlen.
  cbn [make_entry filename fileSize totalBlocks checksum].
  split; [exact (make_entry_ok e) |]. split; [| split].
  - intros Hshort. rewrite make_filename_prefix, substring0_all by exact Hshort.
    reflexivity.
  - intros Hlong. split; [lia |].
    intros E. apply (f_equal String.length) in E. rewrite Hlen in E.
    rewrite append_length in E. cbn [String.length] in E. lia.
  - intros E. rewrite !make_filename_prefix, E. reflexivity.
Qed.

Lemma make_entry_facts_witness :
  filename (make_entry {| name := "a.JPG"; isDirectory := false; size := 3 |})
  = "/images/a.JPG".
Proof.
  apply (proj1 (proj2 (make_entry_facts
                         {| name := "a.JPG"; isDirectory := false; size := 3 |}
                         {| name := "a.JPG"; isDirectory := false; size := 3 |}))).
  cbn. lia.
Defined.

(** ** Opening a stream *)

(** X6. What [openImage] comes to: it returns [true] exactly when the
    reader is mounted, the index is below the image count and the
    catalogued path opens; then the stream is on that file at position
    0, with that index and a cursor of 0.  When the reader is mounted
    and the index is valid but the file does not open, it returns
    [false] and a stream that was open before is closed.  The mounted
    flag, the image count and the catalogue are never changed. *)
Theorem openImage_outcome (sd : Medium) (s : StorageReader) (index : Z) :
  let e := catalogue_at (_catalogue s) index in
  let '(ok, s1) := openImage sd s index in
  (ok = true <->
     _mounted s = true /\ index < _imageCount s /\ is_Some (files sd !! filename e))
  /\ (ok = true ->
        exists d, files sd !! filename e = Some d
                  /\ _currentFile s1 = Some {| fdata := d; fpos := 0 |}
                  /\ _currentIndex s1 = index
                  /\ _currentBlock s1 = 0)
  /\ (ok = false -> _mounted s = true -> index < _imageCount s ->
        s1 = closeImage s /\ isImageOpen s1 = false)
  /\ _mounted s1 = _mounted s
  /\ _imageCount s1 = _imageCount s
  /\ _catalogue s1 = _catalogue s.
Proof.
  intros e. unfold openImage.
  assert (Hcat : _catalogue (closeImage s) = _catalogue s)
    by (unfold closeImage; destruct (_currentFile s); reflexivity).
  assert (Hcnt : _imageCount (closeImage s) = _imageCount s)
    by (unfold closeImage; destruct (_currentFile s); reflexivity).
  destruct (_mounted s) eqn:M; cbn [negb orb].
  2:{ split; [split; [discriminate | intros (H & _); discriminate] |].
      split; [discriminate |]. split; [discriminate |]. auto. }
  destruct (Z.leb_spec (_imageCount s) index) as [Hge | Hlt].
  { split; [split; [discriminate | intros (_ & H & _); lia] |].
    split; [discriminate |]. split; [intros; lia |]. auto. }
  rewrite Hcat. fold e. unfold SD_open.
  destruct (files sd !! filename e) as [d |] eqn:Hd; cbn [_mounted _imageCount _catalogue set_file].
  - rewrite ?closeImage_mounted, ?M, ?Hcnt, ?Hcat. cbn.
    split; [split; [intros _; repeat split; eauto | reflexivity] |].
    split; [intros _; exists d; repeat split |].
    split; [discriminate | auto].
  - rewrite ?closeImage_mounted, ?M, ?Hcnt, ?Hcat.
    split; [split; [discriminate | intros (_ & _ & [x Hx]); discriminate] |].
    split; [discriminate |].
    split; [| auto].
    intros _ _ _.
    assert (Hs : set_file (closeImage s) None = closeImage s).
    { pose proof (closeImage_file s) as Hf. destruct (closeImage s); cbn in *.
      rewrite Hf. reflexivity. }
    rewrite Hs. split; [reflexivity |].
    unfold isImageOpen. rewrite closeImage_file.
    apply bool_decide_eq_false. intros [x Hx]. discriminate.
Qed.

Lemma openImage_outcome_witness :
  let '(ok, s1) := openImage MoreExamples.two_sd MoreExamples.two_reader 1 in
  ok = true /\ _currentIndex s1 = 1 /\ _currentBlock s1 = 0.
Proof.
  pose proof (openImage_outcome MoreExamples.two_sd MoreExamples.two_reader 1) as H.
  cbn zeta in H.
  destruct (openImage MoreExamples.two_sd MoreExamples.two_reader 1) as [ok s1].
  destruct H as (Hiff & Hopen & _).
  assert (E : ok = true).
  { apply Hiff. split; [reflexivity |]. split; [reflexivity |]. vm_compute. eauto. }
  destruct (Hopen E) as (d & _ & _ & Hi & Hc).
  split; [exact E |]. split; assumption.
Defined.

(** ** One block *)

Lemma read_at_offset (d : FileData) (off : Z) :
  0 <= off ->
  fst (read {| fdata := d; fpos := off |} VSENSOR_BLOCK_SIZE)
  = bytes_from d off (Z.to_nat (Z.min VSENSOR_BLOCK_SIZE (fsize d - off)))
  /\ snd (read {| fdata := d; fpos := off |} VSENSOR_BLOCK_SIZE)
     = {| fdata := d;
          fpos := off + Z.max 0 (Z.min VSENSOR_BLOCK_SIZE (fsize d - off)) |}.
Proof.
  intros Hoff. unfold read, available, bytes_from, VSENSOR_BLOCK_SIZE. cbn [fst snd fdata fpos].
  split.
  - do 2 f_equal. lia.
  - f_equal. lia.
Qed.

(** The shape of one sequential read (X7 below). *)
Lemma readNextBlock_shape
    (s : StorageReader) (f : File) (r : BlockReadResult) :
  let e := catalogue_at (_catalogue s) (_currentIndex s) in
  let c := _currentBlock s in
  let d := fdata f in
  _currentFile s = Some f ->
  file_ok f ->
  0 <= c ->
  totalBlocks e <= 8388608 ->
  let '(ok, r1, s1) := readNextBlock s r in
  (ok = true <-> c < totalBlocks e /\ c * VSENSOR_BLOCK_SIZE < fsize d)
  /\ (ok = true ->
        blockIndex r1 = c
        /\ length r1 = Z.min VSENSOR_BLOCK_SIZE (fsize d - c * VSENSOR_BLOCK_SIZE)
        /\ payload r1 = chunk d c
        /\ isLast r1 = Z.eqb c (totalBlocks e - 1)
        /\ drop (Z.to_nat (length r1)) (data r1) = drop (Z.to_nat (length r1)) (data r)
        /\ s1 = set_block
                  (set_file s (Some {| fdata := d;
                                       fpos := c * VSENSOR_BLOCK_SIZE + length r1 |}))
                  (c + 1))
  /\ (ok = false -> r1 = r /\ _currentBlock s1 = c).
Proof.
  intros e c d Hf Hok Hc Htot.
  destruct (Z.lt_ge_cases c (totalBlocks e)) as [Hlt | Hge].
  2:{ unfold readNextBlock. rewrite Hf. fold e c.
      destruct (Z.leb_spec (totalBlocks e) c); [| lia].
      split; [split; [discriminate | lia] |].
      split; [discriminate | auto]. }
  rewrite (readNextBlock_open s f r Hf Hok Hlt). fold e c.
  unfold VSENSOR_BLOCK_SIZE in *.
  rewrite (u32_small (c * 512)) by lia.
  unfold seek. fold d.
  destruct (Z.leb_spec (c * 512) (fsize d)) as [Hin | Hout].
  2:{ split; [split; [discriminate | lia] |].
      split; [discriminate |]. intros _. split; reflexivity. }
  destruct (read_at_offset d (c * 512) ltac:(lia)) as [Hbytes Hafter].
  unfold VSENSOR_BLOCK_SIZE in *.
  destruct (deliver_cases {| fdata := d; fpos := c * 512 |} c (totalBlocks e) r)
    as [[Hb E] | [Hb E]]; rewrite E; clear E; unfold VSENSOR_BLOCK_SIZE in *.
  - assert (Hz : fsize d - c * 512 <= 0).
    { rewrite Hbytes in Hb. apply (f_equal (@List.length byte)) in Hb.
      rewrite length_bytes_from in Hb. cbn in Hb. lia. }
    split; [split; [discriminate | lia] |].
    split; [discriminate |]. intros _. split; reflexivity.
  - assert (Hpos : 0 < fsize d - c * 512).
    { destruct (Z.lt_ge_cases 0 (fsize d - c * 512)) as [H | H]; [exact H |].
      exfalso. apply Hb. rewrite Hbytes.
      replace (Z.to_nat (Z.min 512 (fsize d - c * 512))) with 0%nat by lia.
      reflexivity. }
    assert (Hn : Z.of_nat (List.length (fst (read {| fdata := d; fpos := c * 512 |} 512)))
                 = Z.min 512 (fsize d - c * 512)).
    { rewrite Hbytes, length_bytes_from. lia. }
    split; [split; [lia | reflexivity] |].
    split; [| discriminate]. intros _.
    cbn [blockIndex length isLast data].
    split; [reflexivity |]. split; [exact Hn |].
    split; [| split; [| split]].
    + unfold payload. cbn [length data]. rewrite Nat2Z.id, take_app_length.
      rewrite Hbytes. reflexivity.
    + rewrite u32_small by lia. reflexivity.
    + rewrite Nat2Z.id, drop_app_length. reflexivity.
    + rewrite Hafter, Hn. rewrite u32_small by lia.
      do 3 f_equal. f_equal. lia.
Qed.

(** X7. One sequential read, on an open stream whose cursor and block
    count are in range: [readNextBlock] returns [true] exactly when the
    cursor is below the block count and the file has a byte at offset
    [cursor * VSENSOR_BLOCK_SIZE] (so a file shorter than catalogued
    ends the stream early, with the same [false] as end of data).  A
    successful read hands back block number [cursor], the bytes of that
    block of the file, their count (at most [VSENSOR_BLOCK_SIZE]), the
    last-block flag set exactly for block [totalBlocks - 1], and leaves
    the rest of the buffer as it was; it moves the cursor on by one and
    the handle to the end of the block, and touches nothing else. *)
Theorem readNextBlock_outcome
    (s : StorageReader) (f : File) (r : BlockReadResult) :
  let e := catalogue_at (_catalogue s) (_currentIndex s) in
  let c := _currentBlock s in
  let d := fdata f in
  _currentFile s = Some f ->
  file_ok f ->
  0 <= c ->
  totalBlocks e <= 8388608 ->
  let '(ok, r1, s1) := readNextBlock s r in
  (ok = true <-> c < totalBlocks e /\ c * VSENSOR_BLOCK_SIZE < fsize d)
  /\ (ok = true ->
        blockIndex r1 = c
        /\ length r1 = Z.min VSENSOR_BLOCK_SIZE (fsize d - c * VSENSOR_BLOCK_SIZE)
        /\ payload r1 = chunk d c
        /\ isLast r1 = Z.eqb c (totalBlocks e - 1)
        /\ drop (Z.to_nat (length r1)) (data r1) = drop (Z.to_nat (length r1)) (data r)
        /\ s1 = set_block
                  (set_file s (Some {| fdata := d;
                                       fpos := c * VSENSOR_BLOCK_SIZE + length r1 |}))
                  (c + 1))
  /\ (ok = false -> r1 = r /\ _currentBlock s1 = c).
Proof. exact (readNextBlock_shape s f r). Qed.

Lemma readNextBlock_outcome_witness :
  let '(ok, r1, s1) := readNextBlock MoreExamples.ramp_reader Examples.blank in
  ok = true /\ length r1 = 512 /\ isLast r1 = false /\ _currentBlock s1 = 1.
Proof.
  pose proof (readNextBlock_outcome MoreExamples.ramp_reader
                {| fdata := MoreExamples.ramp; fpos := 0 |} Examples.blank) as H.
  cbn zeta in H.
  specialize (H eq_refl ltac:(unfold file_ok; cbn; lia) ltac:(vm_compute; discriminate)
                ltac:(vm_compute; discriminate)).
  destruct (readNextBlock MoreExamples.ramp_reader Examples.blank) as [[ok r1] s1].
  destruct H as (Hiff & Hshape & _).
  assert (E : ok = true).
  { apply Hiff. split; vm_compute; reflexivity. }
  destruct (Hshape E) as (_ & Hlen & _ & Hlast & _ & Hs).
  split; [exact E |]. split; [rewrite Hlen; reflexivity |].
  split; [rewrite Hlast; reflexivity | rewrite Hs; reflexivity].
Defined.

(** ** A whole stream *)

Lemma read_blocks_from_cursor (n : nat) :
  forall (s : StorageReader) (r : BlockReadResult) (f : File),
    _currentFile s = Some f ->
    file_ok f ->
    fsize (fdata f) = fileSize (catalogue_at (_catalogue s) (_currentIndex s)) ->
    fileSize (catalogue_at (_catalogue s) (_currentIndex s)) < 2 ^ 32 ->
    fileSize (catalogue_at (_catalogue s) (_currentIndex s))
      <= totalBlocks (catalogue_at (_catalogue s) (_currentIndex s)) * VSENSOR_BLOCK_SIZE
      < fileSize (catalogue_at (_catalogue s) (_currentIndex s)) + VSENSOR_BLOCK_SIZE ->
    0 <= _currentBlock s ->
    Z.of_nat n = totalBlocks (catalogue_at (_catalogue s) (_currentIndex s)) - _currentBlock s ->
    List.length (fst (read_blocks n s r)) = n
    /\ map blockIndex (fst (read_blocks n s r))
       = map (fun i => _currentBlock s + Z.of_nat i) (seq 0 n)
    /\ Forall (block_of (fdata f)
                 (totalBlocks (catalogue_at (_catalogue s) (_currentIndex s))))
              (fst (read_blocks n s r))
    /\ concat (map payload (fst (read_blocks n s r)))
       = bytes_from (fdata f) (_currentBlock s * VSENSOR_BLOCK_SIZE)
           (Z.to_nat (fsize (fdata f)
                      - Z.min (_currentBlock s * VSENSOR_BLOCK_SIZE) (fsize (fdata f))))
    /\ at_end_of_data (snd (read_blocks n s r)).
Proof.
  unfold VSENSOR_BLOCK_SIZE.
  induction n as [| n IH]; intros s r f Hf Hok Hsize H32 Hceil Hc Hn;
    set (e := catalogue_at (_catalogue s) (_currentIndex s)) in *.
  - cbn [read_blocks fst snd List.length map seq concat].
    split; [reflexivity |]. split; [reflexivity |]. split; [constructor |].
    split.
    + replace (Z.to_nat _) with 0%nat by lia. reflexivity.
    + split; [rewrite Hf; eauto | fold e; lia].
  - cbn [read_blocks].
    pose proof (readNextBlock_shape s f r) as Hshape. cbn zeta in Hshape.
    fold e in Hshape. unfold VSENSOR_BLOCK_SIZE in Hshape.
    specialize (Hshape Hf Hok Hc ltac:(lia)).
    destruct (readNextBlock s r) as [[ok r1] s1].
    destruct Hshape as (Hiff & Hsucc & _).
    assert (E : ok = true) by (apply Hiff; lia).
    subst ok. destruct (Hsucc eq_refl) as (Hidx & Hlen & Hpay & Hlast & _ & Hs1).
    clear Hiff Hsucc.
    set (f' := {| fdata := fdata f; fpos := _currentBlock s * 512 + length r1 |}) in *.
    specialize (IH s1 r1 f').
    rewrite Hs1 in IH.
    cbn [set_block set_file _catalogue _currentIndex _currentFile _currentBlock f' fdata] in IH.
    fold e in IH.
    destruct IH as (IHlen & IHidx & IHall & IHcat & IHend);
      try assumption; try reflexivity; try lia.
    { unfold file_ok. cbn [f' fdata fpos]. lia. }
    rewrite <- Hs1 in *.
    destruct (read_blocks n s1 r1) as [blocks s']. cbn [fst snd] in *.
    split; [cbn [List.length]; lia |].
    split.
    { cbn [map seq]. rewrite Hidx, Z.add_0_r. f_equal.
      rewrite IHidx, <- seq_shift, map_map. apply map_ext. intros i. lia. }
    split.
    { constructor; [| exact IHall].
      unfold block_of, VSENSOR_BLOCK_SIZE. rewrite Hidx.
      split; [exact Hpay |]. split; [exact Hlen |]. split; [lia | exact Hlast]. }
    split; [| exact IHend].
    cbn [map concat]. rewrite Hpay, IHcat. unfold chunk, VSENSOR_BLOCK_SIZE.
    destruct (Z.lt_ge_cases (fsize (fdata f) - _currentBlock s * 512) 512) as [Hshort | Hfull].
    + replace (Z.to_nat (fsize (fdata f)
                         - Z.min ((_currentBlock s + 1) * 512) (fsize (fdata f))))
        with 0%nat by lia.
      cbn [bytes_from seq map]. rewrite app_nil_r. f_equal. lia.
    + replace (Z.to_nat (fsize (fdata f)
                         - Z.min (_currentBlock s * 512) (fsize (fdata f))))
        with (Z.to_nat (Z.min 512 (fsize (fdata f) - _currentBlock s * 512))
              + Z.to_nat (fsize (fdata f)
                          - Z.min ((_currentBlock s + 1) * 512) (fsize (fdata f))))%nat
        by lia.
      rewrite bytes_from_app. do 2 f_equal. lia.
Qed.

(** Opening resets the stream to the start of the catalogued file. *)
Lemma openImage_opened (sd : Medium) (s s1 : StorageReader) (index : Z) (d : FileData) :
  openImage sd s index = (true, s1) ->
  files sd !! filename (catalogue_at (_catalogue s) index) = Some d ->
  _currentFile s1 = Some {| fdata := d; fpos := 0 |}
  /\ _currentIndex s1 = index
  /\ _currentBlock s1 = 0
  /\ _catalogue s1 = _catalogue s
  /\ _mounted s1 = true
  /\ _imageCount s1 = _imageCount s
  /\ index < _imageCount s.
Proof.
  intros Hopen Hfile. unfold openImage in Hopen.
  destruct (_mounted s) eqn:M; cbn [negb orb] in Hopen; [| discriminate].
  destruct (Z.leb_spec (_imageCount s) index) as [| Hlt]; [discriminate |].
  assert (Hcat : _catalogue (closeImage s) = _catalogue s)
    by (unfold closeImage; destruct (_currentFile s); reflexivity).
  assert (Hcnt : _imageCount (closeImage s) = _imageCount s)
    by (unfold closeImage; destruct (_currentFile s); reflexivity).
  rewrite Hcat in Hopen. unfold SD_open in Hopen. rewrite Hfile in Hopen.
  injection Hopen as <-.
  cbn [_currentFile _currentIndex _currentBlock _catalogue _mounted _imageCount].
  rewrite ?closeImage_mounted, ?M, ?Hcat, ?Hcnt. repeat split; try reflexivity. exact Hlt.
Qed.

(** A whole stream after [openImage] (X8 below). *)
Lemma read_blocks_after_open
    (sd : Medium) (s s1 : StorageReader) (index : Z) (r : BlockReadResult) (d : FileData) :
  let e := catalogue_at (_catalogue s) index in
  openImage sd s index = (true, s1) ->
  files sd !! filename e = Some d ->
  fsize d = fileSize e ->
  0 <= fileSize e < 2 ^ 32 ->
  fileSize e <= totalBlocks e * VSENSOR_BLOCK_SIZE < fileSize e + VSENSOR_BLOCK_SIZE ->
  let n := Z.to_nat (totalBlocks e) in
  let blocks := fst (read_blocks n s1 r) in
  List.length blocks = n
  /\ map blockIndex blocks = map Z.of_nat (seq 0 n)
  /\ Forall (block_of d (totalBlocks e)) blocks
  /\ concat (map payload blocks) = file_bytes d
  /\ at_end_of_data (snd (read_blocks n s1 r)).
Proof.
  intros e Hopen Hfile Hsize Hrange Hceil n blocks.
  destruct (openImage_opened sd s s1 index d Hopen Hfile)
    as (Hf & Hi & Hc & Hcat & _).
  pose proof (read_blocks_from_cursor n s1 r {| fdata := d; fpos := 0 |}) as H.
  rewrite Hi, Hcat, Hc in H. cbn [fdata] in H. fold e in H.
  unfold VSENSOR_BLOCK_SIZE in *.
  destruct H as (Hlen & Hidx & Hall & Hconcat & Hend);
    try assumption; try lia.
  { unfold file_ok. cbn. lia. }
  split; [exact Hlen |]. split; [| split; [exact Hall |]; split; [| exact Hend]].
  - unfold blocks. rewrite Hidx. apply map_ext. intros i. lia.
  - unfold blocks. rewrite Hconcat. unfold file_bytes. f_equal. lia.
Qed.

(** X8. Streaming hands back the file: after a successful [openImage]
    of an entry whose file still has the catalogued size and whose block
    count is the ceiling of that size over the block size, the
    [totalBlocks] calls of [readNextBlock] all succeed; the blocks are
    numbered 0, 1, ... in order, each carries the bytes of its block of
    the file, every block before the last is [VSENSOR_BLOCK_SIZE] long,
    the last-block flag is set on block [totalBlocks - 1] only, the
    payloads put end to end are the bytes of the file, and the stream is
    then at end of data. *)
Theorem stream_reassembles_file
    (sd : Medium) (s s1 : StorageReader) (index : Z) (r : BlockReadResult) (d : FileData) :
  let e := catalogue_at (_catalogue s) index in
  openImage sd s index = (true, s1) ->
  files sd !! filename e = Some d ->
  fsize d = fileSize e ->
  0 <= fileSize e < 2 ^ 32 ->
  fileSize e <= totalBlocks e * VSENSOR_BLOCK_SIZE < fileSize e + VSENSOR_BLOCK_SIZE ->
  let n := Z.to_nat (totalBlocks e) in
  let blocks := fst (read_blocks n s1 r) in
  List.length blocks = n
  /\ map blockIndex blocks = map Z.of_nat (seq 0 n)
  /\ Forall (block_of d (totalBlocks e)) blocks
  /\ concat (map payload blocks) = file_bytes d
  /\ at_end_of_data (snd (read_blocks n s1 r)).
Proof. exact (read_blocks_after_open sd s s1 index r d). Qed.

Lemma stream_reassembles_file_witness :
  concat (map payload (fst (read_blocks 3 MoreExamples.ramp_reader Examples.blank)))
  = file_bytes MoreExamples.ramp.
Proof.
  pose proof (stream_reassembles_file MoreExamples.two_sd MoreExamples.two_reader
                MoreExamples.ramp_reader 1 Examples.blank MoreExamples.ramp) as H.
  cbn zeta in H.
  specialize (H eq_refl eq_refl eq_refl).
  destruct H as (_ & _ & _ & H & _).
  - vm_compute. split; [discriminate | reflexivity].
  - vm_compute. split; [discriminate | reflexivity].
  - exact H.
Defined.

(** ** Random access *)

(** The shape of one random-access read (X9 below). *)
Lemma readBlock_shape
    (s : StorageReader) (f : File) (k : Z) (r : BlockReadResult) :
  let e := catalogue_at (_catalogue s) (_currentIndex s) in
  let d := fdata f in
  _currentFile s = Some f ->
  0 <= k ->
  totalBlocks e <= 8388608 ->
  let '(ok, r1, s1) := readBlock s k r in
  (ok = true <-> k < totalBlocks e /\ k * VSENSOR_BLOCK_SIZE < fsize d)
  /\ (fsize d = fileSize e ->
      totalBlocks e * VSENSOR_BLOCK_SIZE < fileSize e + VSENSOR_BLOCK_SIZE ->
      k < totalBlocks e -> ok = true)
  /\ (ok = true ->
        blockIndex r1 = k
        /\ length r1 = Z.min VSENSOR_BLOCK_SIZE (fsize d - k * VSENSOR_BLOCK_SIZE)
        /\ payload r1 = chunk d k
        /\ isLast r1 = Z.eqb k (totalBlocks e - 1)
        /\ s1 = set_file s (Some {| fdata := d;
                                    fpos := k * VSENSOR_BLOCK_SIZE + length r1 |}))
  /\ (ok = false -> r1 = r /\ _currentBlock s1 = _currentBlock s).
Proof.
  intros e d Hf Hk Htot.
  destruct (Z.lt_ge_cases k (totalBlocks e)) as [Hlt | Hge].
  2:{ unfold readBlock. rewrite Hf. fold e.
      destruct (Z.leb_spec (totalBlocks e) k); [| lia].
      split; [split; [discriminate | lia] |].
      split; [intros; lia |]. split; [discriminate | auto]. }
  rewrite (readBlock_open s f k r Hf Hlt). fold e.
  unfold VSENSOR_BLOCK_SIZE in *.
  rewrite (u32_small (k * 512)) by lia.
  unfold seek. fold d.
  destruct (Z.leb_spec (k * 512) (fsize d)) as [Hin | Hout].
  2:{ split; [split; [discriminate | lia] |].
      split; [intros; lia |]. split; [discriminate | auto]. }
  destruct (read_at_offset d (k * 512) ltac:(lia)) as [Hbytes Hafter].
  unfold VSENSOR_BLOCK_SIZE in *.
  destruct (deliver_cases {| fdata := d; fpos := k * 512 |} k (totalBlocks e) r)
    as [[Hb E] | [Hb E]]; rewrite E; clear E; unfold VSENSOR_BLOCK_SIZE in *.
  - assert (Hz : fsize d - k * 512 <= 0).
    { rewrite Hbytes in Hb. apply (f_equal (@List.length byte)) in Hb.
      rewrite length_bytes_from in Hb. cbn in Hb. lia. }
    split; [split; [discriminate | lia] |].
    split; [intros; lia |]. split; [discriminate |]. intros _. split; reflexivity.
  - assert (Hpos : 0 < fsize d - k * 512).
    { destruct (Z.lt_ge_cases 0 (fsize d - k * 512)) as [H | H]; [exact H |].
      exfalso. apply Hb. rewrite Hbytes.
      replace (Z.to_nat (Z.min 512 (fsize d - k * 512))) with 0%nat by lia.
      reflexivity. }
    assert (Hn : Z.of_nat (List.length (fst (read {| fdata := d; fpos := k * 512 |} 512)))
                 = Z.min 512 (fsize d - k * 512)).
    { rewrite Hbytes, length_bytes_from. lia. }
    split; [split; [lia | reflexivity] |].
    split; [reflexivity |].
    split; [| discriminate]. intros _.
    cbn [blockIndex length isLast data].
    split; [reflexivity |]. split; [exact Hn |].
    split; [| split].
    + unfold payload. cbn [length data]. rewrite Nat2Z.id, take_app_length.
      rewrite Hbytes. reflexivity.
    + rewrite u32_small by lia. reflexivity.
    + rewrite Hafter, Hn. do 3 f_equal. lia.
Qed.

(** X9. One random-access read, on an open stream with a block count
    in range: [readBlock k] returns [true] exactly when [k] is below the
    block count and the file has a byte at offset
    [k * VSENSOR_BLOCK_SIZE]; this is so for every [k] below the block
    count when the file has the catalogued size and the block count is
    the ceiling of that size over the block size.  A successful read
    hands back block number [k] with the bytes of block [k] of the file,
    their count and the last-block flag, and changes only the position
    of the handle; a failed one leaves the result and the cursor as
    they were. *)
Theorem readBlock_outcome
    (s : StorageReader) (f : File) (k : Z) (r : BlockReadResult) :
  let e := catalogue_at (_catalogue s) (_currentIndex s) in
  let d := fdata f in
  _currentFile s = Some f ->
  0 <= k ->
  totalBlocks e <= 8388608 ->
  let '(ok, r1, s1) := readBlock s k r in
  (ok = true <-> k < totalBlocks e /\ k * VSENSOR_BLOCK_SIZE < fsize d)
  /\ (fsize d = fileSize e ->
      totalBlocks e * VSENSOR_BLOCK_SIZE < fileSize e + VSENSOR_BLOCK_SIZE ->
      k < totalBlocks e -> ok = true)
  /\ (ok = true ->
        blockIndex r1 = k
        /\ length r1 = Z.min VSENSOR_BLOCK_SIZE (fsize d - k * VSENSOR_BLOCK_SIZE)
        /\ payload r1 = chunk d k
        /\ isLast r1 = Z.eqb k (totalBlocks e - 1)
        /\ s1 = set_file s (Some {| fdata := d;
                                    fpos := k * VSENSOR_BLOCK_SIZE + length r1 |}))
  /\ (ok = false -> r1 = r /\ _currentBlock s1 = _currentBlock s).
Proof. exact (readBlock_shape s f k r). Qed.

Lemma readBlock_outcome_witness :
  let '(ok, r1, s1) := readBlock MoreExamples.ramp_reader 2 Examples.blank in
  ok = true /\ length r1 = 6 /\ isLast r1 = true
  /\ _currentBlock s1 = _currentBlock MoreExamples.ramp_reader.
Proof.
  pose proof (readBlock_outcome MoreExamples.ramp_reader
                {| fdata := MoreExamples.ramp; fpos := 0 |} 2 Examples.blank) as H.
  cbn zeta in H.
  specialize (H eq_refl ltac:(lia) ltac:(vm_compute; discriminate)).
  destruct (readBlock MoreExamples.ramp_reader 2 Examples.blank) as [[ok r1] s1].
  destruct H as (Hiff & _ & Hshape & _).
  assert (E : ok = true).
  { apply Hiff. split; vm_compute; reflexivity. }
  destruct (Hshape E) as (_ & Hlen & _ & Hlast & Hs).
  split; [exact E |]. split; [rewrite Hlen; reflexivity |].
  split; [rewrite Hlast; reflexivity | rewrite Hs; reflexivity].
Defined.

(** ** Checksum: range, blind spots, agreement with the stream *)

Lemma computeChecksum_cases (sd : Medium) (s : StorageReader) (index : Z) :
  computeChecksum sd s index = 0
  \/ exists d, files sd !! filename (catalogue_at (_catalogue s) index) = Some d
               /\ _mounted s = true /\ index < _imageCount s
               /\ computeChecksum sd s index = fletcher16 (file_bytes d).
Proof.
  destruct (_mounted s) eqn:M.
  - destruct (Z.lt_ge_cases index (_imageCount s)) as [Hlt | Hge].
    + destruct (files sd !! filename (catalogue_at (_catalogue s) index)) as [d |] eqn:Hd.
      * right. exists d. repeat split; try assumption.
        apply computeChecksum_opened; assumption.
      * left. unfold computeChecksum, SD_open. rewrite M, Hd. cbn.
        destruct (_imageCount s <=? index); reflexivity.
    + left. unfold computeChecksum. rewrite M. cbn.
      destruct (Z.leb_spec (_imageCount s) index); [reflexivity | lia].
  - left. unfold computeChecksum. rewrite M. reflexivity.
Qed.

(** X10. The range of the checksum: whatever the card and the reader,
    [computeChecksum] returns a 16-bit value neither of whose bytes is
    [0xFF]; so it is at most [0xFEFE]. *)
Theorem computeChecksum_range (sd : Medium) (s : StorageReader) (index : Z) :
  0 <= computeChecksum sd s index <= 0xFEFE
  /\ computeChecksum sd s index mod 2 ^ 8 <> 0xFF
  /\ computeChecksum sd s index / 2 ^ 8 <> 0xFF.
Proof.
  destruct (computeChecksum_cases sd s index) as [-> | (d & _ & _ & _ & ->)].
  - cbn. repeat split; try lia; discriminate.
  - unfold fletcher16.
    pose proof (fletcher16_sums_range (file_bytes d)) as [H1 H2].
    set (a := fst _) in *. set (b := snd _) in *.
    assert (Hm : (b * 2 ^ 8 + a) mod 2 ^ 8 = a).
    { rewrite Z.add_comm, Z.mod_add by lia. apply Z.mod_small. lia. }
    assert (Hd : (b * 2 ^ 8 + a) / 2 ^ 8 = b).
    { rewrite Z.div_add_l by lia. rewrite Z.div_small by lia. lia. }
    rewrite Hm, Hd. repeat split; lia.
Qed.

Lemma fletcher16_sums_congruent (l l' : list byte) :
  Forall2 (fun b b' => byte_val b mod 255 = byte_val b' mod 255) l l' ->
  fletcher16_sums l = fletcher16_sums l'.
Proof.
  unfold fletcher16_sums. generalize (0, 0).
  intros sums H. revert sums.
  induction H as [| b b' l l' Hb _ IH]; intros sums; cbn [fold_left]; [reflexivity |].
  rewrite IH. f_equal. f_equal.
  - rewrite <- Zplus_mod_idemp_r, Hb, Zplus_mod_idemp_r. reflexivity.
  - f_equal. f_equal.
    rewrite <- Zplus_mod_idemp_r, Hb, Zplus_mod_idemp_r. reflexivity.
Qed.

(** X11. A blind spot of the checksum: two files that open, have the
    same length, and whose bytes agree modulo 255 at every offset, get
    the same checksum; in particular a [0x00] byte and a [0xFF] byte are
    not told apart. *)
Theorem computeChecksum_mod_255
    (sd sd' : Medium) (s s' : StorageReader) (index index' : Z) (d d' : FileData) :
  _mounted s = true -> index < _imageCount s ->
  files sd !! filename (catalogue_at (_catalogue s) index) = Some d ->
  _mounted s' = true -> index' < _imageCount s' ->
  files sd' !! filename (catalogue_at (_catalogue s') index') = Some d' ->
  fsize d = fsize d' ->
  (forall i, 0 <= i < fsize d ->
             byte_val (fbyte d i) mod 255 = byte_val (fbyte d' i) mod 255) ->
  computeChecksum sd s index = computeChecksum sd' s' index'.
Proof.
  intros Hm Hi Hd Hm' Hi' Hd' Hsize Hbytes.
  rewrite (computeChecksum_opened sd s index d Hm Hi Hd).
  rewrite (computeChecksum_opened sd' s' index' d' Hm' Hi' Hd').
  unfold fletcher16. rewrite (fletcher16_sums_congruent (file_bytes d) (file_bytes d'));
    [reflexivity |].
  unfold file_bytes, bytes_from. rewrite <- Hsize.
  apply Forall2_fmap, Forall_Forall2_diag, Forall_forall.
  intros i Hin. apply list_elem_of_In, in_seq in Hin.
  replace (0 + Z.of_nat i) with (Z.of_nat i) by lia.
  apply Hbytes. lia.
Qed.

Lemma computeChecksum_mod_255_witness :
  computeChecksum MoreExamples.twins_sd MoreExamples.twins_reader 0
  = computeChecksum MoreExamples.twins_sd MoreExamples.twins_reader 1.
Proof.
  apply (computeChecksum_mod_255 MoreExamples.twins_sd MoreExamples.twins_sd
           MoreExamples.twins_reader MoreExamples.twins_reader 0 1
           (file_of_bytes ["000"; "001"]%byte) (file_of_bytes ["255"; "001"]%byte));
    try reflexivity.
  intros i Hi. cbn in Hi.
  assert (E : i = 0 \/ i = 1) by lia.
  destruct E as [-> | ->]; reflexivity.
Defined.

(** X12. The checksum agrees with the stream: under the conditions of
    X8, the Fletcher-16 value of the payloads handed back by the
    [totalBlocks] calls of [readNextBlock], put end to end, is what
    [computeChecksum] returns for that image, asked before the stream
    was opened or while it is open. *)
Theorem checksum_of_stream
    (sd : Medium) (s s1 : StorageReader) (index : Z) (r : BlockReadResult) (d : FileData) :
  let e := catalogue_at (_catalogue s) index in
  openImage sd s index = (true, s1) ->
  files sd !! filename e = Some d ->
  fsize d = fileSize e ->
  0 <= fileSize e < 2 ^ 32 ->
  fileSize e <= totalBlocks e * VSENSOR_BLOCK_SIZE < fileSize e + VSENSOR_BLOCK_SIZE ->
  let blocks := fst (read_blocks (Z.to_nat (totalBlocks e)) s1 r) in
  fletcher16 (concat (map payload blocks)) = computeChecksum sd s index
  /\ computeChecksum sd s1 index = computeChecksum sd s index.
Proof.
  intros e Hopen Hfile Hsize Hrange Hceil blocks.
  destruct (openImage_opened sd s s1 index d Hopen Hfile)
    as (_ & _ & _ & Hcat & Hm1 & Hcnt & Hlt).
  assert (Hm : _mounted s = true).
  { unfold openImage in Hopen. destruct (_mounted s); [reflexivity | discriminate]. }
  pose proof (read_blocks_after_open sd s s1 index r d Hopen Hfile Hsize Hrange Hceil) as H.
  cbn zeta in H. destruct H as (_ & _ & _ & Hconcat & _).
  unfold blocks, e. rewrite Hconcat.
  rewrite (computeChecksum_opened sd s index d Hm Hlt Hfile).
  split; [reflexivity |].
  apply computeChecksum_opened; [exact Hm1 | lia |].
  rewrite Hcat. exact Hfile.
Qed.

Lemma checksum_of_stream_witness :
  fletcher16 (concat (map payload
                        (fst (read_blocks 3 MoreExamples.ramp_reader Examples.blank))))
  = computeChecksum MoreExamples.two_sd MoreExamples.two_reader 1.
Proof.
  pose proof (checksum_of_stream MoreExamples.two_sd MoreExamples.two_reader
                MoreExamples.ramp_reader 1 Examples.blank MoreExamples.ramp) as H.
  cbn zeta in H.
  specialize (H eq_refl eq_refl eq_refl).
  destruct H as (H & _).
  - vm_compute. split; [discriminate | reflexivity].
  - vm_compute. split; [discriminate | reflexivity].
  - exact H.
Defined.

(** ** What holds of every reachable reader *)

Lemma entry_ok_zero : entry_ok ImageInfo_zero.
Proof. unfold entry_ok. cbn. repeat split; lia. Qed.

Lemma catalogue_at_ok (cat : list ImageInfo) (i : Z) :
  Forall entry_ok cat -> entry_ok (catalogue_at cat i).
Proof.
  intros H. unfold catalogue_at.
  destruct (cat !! Z.to_nat i) as [e |] eqn:E; cbn.
  - exact (Forall_lookup_1 _ _ _ _ H E).
  - exact entry_ok_zero.
Qed.

Lemma scan_loop_entries (pending : list DirEntry) :
  forall s : StorageReader,
    Forall entry_ok (_catalogue s) ->
    Forall entry_ok (_catalogue (scan_loop pending s)).
Proof.
  induction pending as [| e rest IH]; intros s H; cbn [scan_loop];
    destruct (_imageCount s <? VSENSOR_MAX_IMAGES); try exact H.
  destruct (accepted e); [| apply IH; exact H].
  apply IH. cbn [add_entry _catalogue].
  apply Forall_insert; [exact H | apply make_entry_ok].
Qed.

Lemma reader_inv_new : reader_inv StorageReader_new.
Proof.
  split; [exact reader_ok_new |]. split; [| split].
  - cbn. apply Forall_replicate. exact entry_ok_zero.
  - cbn. split; reflexivity.
  - intros _. reflexivity.
Qed.

Lemma reader_inv_closeImage s : reader_inv s -> reader_inv (closeImage s).
Proof.
  intros (Hok & Hcat & Hstream & Hun).
  split; [apply reader_ok_closeImage; exact Hok |].
  unfold closeImage in *. unfold stream_ok in *.
  destruct (_currentFile s) eqn:E; cbn.
  - split; [exact Hcat |]. split; [split; reflexivity | exact Hun].
  - rewrite E. split; [exact Hcat |]. split; [exact Hstream | exact Hun].
Qed.

Lemma reader_inv_end bus s : reader_inv s -> reader_inv (snd (end_ bus s)).
Proof.
  intros H. pose proof (reader_ok_end bus s (proj1 H)) as Hok.
  apply reader_inv_closeImage in H. destruct H as (_ & Hcat & Hstream & Hun).
  split; [exact Hok |]. unfold end_.
  pose proof (closeImage_file s) as Hf.
  destruct (_mounted (closeImage s)) eqn:M; cbn [snd].
  - split; [exact Hcat |]. split; [| reflexivity].
    unfold stream_ok in *. cbn. rewrite Hf in *. exact Hstream.
  - split; [exact Hcat |]. split; [exact Hstream |].
    intros _. apply Hun. reflexivity.
Qed.

Lemma reader_inv_begin sd bus s : reader_inv s -> reader_inv (snd (begin sd bus s)).
Proof.
  intros H. pose proof (reader_ok_begin sd bus s (proj1 H)) as Hok.
  destruct H as (_ & Hcat & Hstream & Hun).
  split; [exact Hok |]. clear Hok. unfold begin.
  destruct (_mounted s) eqn:M; [unchanged Hun |].
  destruct (negb (mount_ok sd)); [unchanged Hun |].
  destruct (card_type sd =? CARD_NONE); [unchanged Hun |].
  pose proof (scanDirectory_frame sd (set_mounted s true)) as (Hm & Hf & Hi & Hb).
  assert (Hc : Forall entry_ok (_catalogue (snd (_scanDirectory sd (set_mounted s true))))).
  { unfold _scanDirectory. destruct (images_dir sd); cbn [snd]; [| exact Hcat].
    apply scan_loop_entries. exact Hcat. }
  destruct (_scanDirectory sd (set_mounted s true)) as [ok s']. cbn [snd] in *.
  cbn [set_mounted _mounted _currentFile _currentIndex _currentBlock] in *.
  split; [exact Hc |]. split; [| rewrite Hm; discriminate].
  unfold stream_ok in *. rewrite Hf, Hi, Hb.
  destruct (_currentFile s); [| exact Hstream].
  destruct Hstream as (Hmt & _). congruence.
Qed.

Lemma reader_inv_openImage sd s index :
  medium_ok sd -> 0 <= index ->
  reader_inv s -> reader_inv (snd (openImage sd s index)).
Proof.
  intros Hsd Hidx H. pose proof (reader_ok_openImage sd Hsd s index (proj1 H)) as Hok.
  split; [exact Hok |]. clear Hok. unfold openImage.
  pose proof H as (_ & Hcat0 & Hstream0 & Hun0).
  destruct (_mounted s) eqn:M; cbn [negb orb]; [| unchanged Hun0].
  destruct (Z.leb_spec (_imageCount s) index) as [| Hlt]; [unchanged Hun0 |].
  clear Hcat0 Hstream0 Hun0.
  apply reader_inv_closeImage in H. destruct H as (_ & Hcat & Hstream & Hun).
  assert (Hcnt : _imageCount (closeImage s) = _imageCount s)
    by (unfold closeImage; destruct (_currentFile s); reflexivity).
  pose proof (closeImage_file s) as Hf.
  destruct (SD_open sd _) as [f |]; cbn [snd].
  - split; [exact Hcat |]. split; [| exact Hun].
    unfold stream_ok. cbn. rewrite closeImage_mounted, Hcnt.
    pose proof (catalogue_at_ok _ index Hcat) as (_ & Ht & _).
    repeat split; try assumption; lia.
  - split; [exact Hcat |]. split; [| exact Hun].
    unfold stream_ok in *. cbn. rewrite Hf in Hstream. exact Hstream.
Qed.

Lemma reader_inv_readNextBlock s r :
  reader_inv s -> reader_inv (snd (readNextBlock s r)).
Proof.
  intros H. pose proof (reader_ok_readNextBlock s r (proj1 H)) as Hok.
  split; [exact Hok |]. clear Hok.
  destruct H as ((_ & _ & Hfile) & Hcat & Hstream & Hun).
  destruct (_currentFile s) as [f |] eqn:Hf.
  2:{ unfold readNextBlock. rewrite Hf. cbn [snd]. auto. }
  specialize (Hfile f eq_refl).
  unfold stream_ok in Hstream. rewrite Hf in Hstream.
  destruct Hstream as (Hm & Hi & Hc).
  pose proof (catalogue_at_ok _ (_currentIndex s) Hcat) as (_ & Ht & _).
  destruct (Z.lt_ge_cases (_currentBlock s)
              (totalBlocks (catalogue_at (_catalogue s) (_currentIndex s)))) as [Hlt | Hge].
  - rewrite (readNextBlock_open s f r Hf Hfile Hlt).
    destruct (seek f _) as [f1 |]; cbn [snd].
    + destruct (deliver f1 _ _ r) as [[[] r1] f']; cbn [snd];
        (split; [exact Hcat |]; split; [| exact Hun]); unfold stream_ok; cbn.
      * rewrite u32_small by lia. repeat split; try assumption; lia.
      * repeat split; try assumption; lia.
    + split; [exact Hcat |]. split; [| exact Hun]. unfold stream_ok. cbn.
      repeat split; try assumption; lia.
  - unfold readNextBlock. rewrite Hf.
    destruct (Z.leb_spec (totalBlocks (catalogue_at (_catalogue s) (_currentIndex s)))
                (_currentBlock s)); [| lia].
    cbn [snd]. split; [exact Hcat |]. split; [| exact Hun].
    unfold stream_ok. rewrite Hf. repeat split; try assumption; lia.
Qed.

Lemma reader_inv_readBlock s k r :
  reader_inv s -> reader_inv (snd (readBlock s k r)).
Proof.
  intros H. pose proof (reader_ok_readBlock s k r (proj1 H)) as Hok.
  split; [exact Hok |]. clear Hok.
  destruct H as (_ & Hcat & Hstream & Hun).
  unfold readBlock.
  destruct (_currentFile s) as [f |] eqn:Hf; cbn [snd].
  2:{ auto. }
  assert (Hsame : stream_ok s) by exact Hstream.
  unfold stream_ok in Hstream. rewrite Hf in Hstream.
  destruct (totalBlocks (catalogue_at (_catalogue s) (_currentIndex s)) <=? k); cbn [snd];
    [split; [exact Hcat |]; split; [exact Hsame | exact Hun] |].
  destruct (seek f _) as [f1 |]; cbn [snd];
    [| split; [exact Hcat |]; split; [exact Hsame | exact Hun]].
  destruct (_readAtOffset f1 _ k _ r) as [[ok r1] f']. cbn [snd].
  split; [exact Hcat |]. split; [| exact Hun].
  unfold stream_ok. cbn. exact Hstream.
Qed.

(** *** The invariant on the counted entries, from any constructed reader *)

Lemma reader_inv_sound s : reader_inv s -> reader_sound s.
Proof.
  intros (Hok & Hcat & Hstream & Hun).
  split; [exact Hok |]. split; [apply Forall_take; exact Hcat |].
  split; assumption.
Qed.

Lemma counted_entry_ok (cat : list ImageInfo) (n : nat) (i : Z) :
  Forall entry_ok (take n cat) ->
  0 <= i -> (Z.to_nat i < n)%nat ->
  entry_ok (catalogue_at cat i).
Proof.
  intros H Hi Hlt. unfold catalogue_at.
  destruct (cat !! Z.to_nat i) as [e |] eqn:E; cbn; [| exact entry_ok_zero].
  apply (Forall_lookup_1 _ _ (Z.to_nat i) e H).
  rewrite lookup_take_lt by exact Hlt. exact E.
Qed.

Lemma reader_ok_init (slots : list ImageInfo) :
  List.length slots = Z.to_nat VSENSOR_MAX_IMAGES -> reader_ok (StorageReader_init slots).
Proof.
  intros Hlen. unfold reader_ok, VSENSOR_MAX_IMAGES. cbn.
  split; [exact Hlen |]. split; [lia | discriminate].
Qed.

Lemma reader_sound_init (slots : list ImageInfo) :
  List.length slots = Z.to_nat VSENSOR_MAX_IMAGES -> reader_sound (StorageReader_init slots).
Proof.
  intros Hlen. split; [exact (reader_ok_init slots Hlen) |]. split; [| split].
  - cbn. constructor.
  - cbn. split; reflexivity.
  - intros _. reflexivity.
Qed.

Lemma reader_sound_closeImage s : reader_sound s -> reader_sound (closeImage s).
Proof.
  intros (Hok & Hcat & Hstream & Hun).
  split; [apply reader_ok_closeImage; exact Hok |].
  unfold closeImage in *. unfold stream_ok in *.
  destruct (_currentFile s) eqn:E; cbn.
  - split; [exact Hcat |]. split; [split; reflexivity | exact Hun].
  - rewrite E. split; [exact Hcat |]. split; [exact Hstream | exact Hun].
Qed.

Lemma reader_sound_end bus s : reader_sound s -> reader_sound (snd (end_ bus s)).
Proof.
  intros H. pose proof (reader_ok_end bus s (proj1 H)) as Hok.
  apply reader_sound_closeImage in H. destruct H as (_ & Hcat & Hstream & Hun).
  split; [exact Hok |]. unfold end_.
  pose proof (closeImage_file s) as Hf.
  destruct (_mounted (closeImage s)) eqn:M; cbn [snd].
  - split; [cbn; constructor |]. split; [| reflexivity].
    unfold stream_ok in *. cbn. rewrite Hf in *. exact Hstream.
  - split; [exact Hcat |]. split; [exact Hstream |].
    intros _. apply Hun. reflexivity.
Qed.

Lemma reader_sound_begin sd bus s : reader_sound s -> reader_sound (snd (begin sd bus s)).
Proof.
  intros H. pose proof (reader_ok_begin sd bus s (proj1 H)) as Hok.
  destruct H as ((Hlen & _) & Hcat & Hstream & Hun).
  split; [exact Hok |]. clear Hok. unfold begin.
  destruct (_mounted s) eqn:M; [unchanged Hun |].
  destruct (negb (mount_ok sd)); [unchanged Hun |].
  destruct (card_type sd =? CARD_NONE); [unchanged Hun |].
  pose proof (scanDirectory_frame sd (set_mounted s true)) as (Hm & Hf & Hi & Hb).
  assert (Hc : Forall entry_ok
                 (take (Z.to_nat (_imageCount (snd (_scanDirectory sd (set_mounted s true)))))
                       (_catalogue (snd (_scanDirectory sd (set_mounted s true)))))).
  { destruct (images_dir sd) as [entries |] eqn:Hdir.
    - rewrite (scanDirectory_spec sd (set_mounted s true) entries Hdir Hlen).
      cbn [snd _imageCount _catalogue]. rewrite Nat2Z.id.
      rewrite take_app_length' by (rewrite length_map; reflexivity).
      apply Forall_fmap, Forall_forall. intros e _. apply make_entry_ok.
    - unfold _scanDirectory. rewrite Hdir. cbn. constructor. }
  destruct (_scanDirectory sd (set_mounted s true)) as [ok s']. cbn [snd] in *.
  cbn [set_mounted _mounted _currentFile _currentIndex _currentBlock] in *.
  split; [exact Hc |]. split; [| rewrite Hm; discriminate].
  unfold stream_ok in *. rewrite Hf, Hi, Hb.
  destruct (_currentFile s); [| exact Hstream].
  destruct Hstream as (Hmt & _). congruence.
Qed.

Lemma reader_sound_openImage sd s index :
  medium_ok sd -> 0 <= index ->
  reader_sound s -> reader_sound (snd (openImage sd s index)).
Proof.
  intros Hsd Hidx H. pose proof (reader_ok_openImage sd Hsd s index (proj1 H)) as Hok.
  split; [exact Hok |]. clear Hok. unfold openImage.
  pose proof H as (_ & Hcat0 & Hstream0 & Hun0).
  destruct (_mounted s) eqn:M; cbn [negb orb]; [| unchanged Hun0].
  destruct (Z.leb_spec (_imageCount s) index) as [| Hlt]; [unchanged Hun0 |].
  clear Hcat0 Hstream0 Hun0.
  apply reader_sound_closeImage in H. destruct H as (_ & Hcat & Hstream & Hun).
  assert (Hcnt : _imageCount (closeImage s) = _imageCount s)
    by (unfold closeImage; destruct (_currentFile s); reflexivity).
  pose proof (closeImage_file s) as Hf.
  destruct (SD_open sd _) as [f |]; cbn [snd].
  - split; [exact Hcat |]. split; [| exact Hun].
    unfold stream_ok. cbn. rewrite closeImage_mounted, Hcnt.
    pose proof (counted_entry_ok _ _ index Hcat Hidx ltac:(lia)) as (_ & Ht & _).
    repeat split; try assumption; lia.
  - split; [exact Hcat |]. split; [| exact Hun].
    unfold stream_ok in *. cbn. rewrite Hf in Hstream. exact Hstream.
Qed.

Lemma reader_sound_readNextBlock s r :
  reader_sound s -> reader_sound (snd (readNextBlock s r)).
Proof.
  intros H. pose proof (reader_ok_readNextBlock s r (proj1 H)) as Hok.
  split; [exact Hok |]. clear Hok.
  destruct H as ((_ & _ & Hfile) & Hcat & Hstream & Hun).
  destruct (_currentFile s) as [f |] eqn:Hf.
  2:{ unfold readNextBlock. rewrite Hf. cbn [snd]. auto. }
  specialize (Hfile f eq_refl).
  unfold stream_ok in Hstream. rewrite Hf in Hstream.
  destruct Hstream as (Hm & Hi & Hc).
  pose proof (counted_entry_ok _ _ (_currentIndex s) Hcat ltac:(lia) ltac:(lia))
    as (_ & Ht & _).
  destruct (Z.lt_ge_cases (_currentBlock s)
              (totalBlocks (catalogue_at (_catalogue s) (_currentIndex s)))) as [Hlt | Hge].
  - rewrite (readNextBlock_open s f r Hf Hfile Hlt).
    destruct (seek f _) as [f1 |]; cbn [snd].
    + destruct (deliver f1 _ _ r) as [[[] r1] f']; cbn [snd];
        (split; [exact Hcat |]; split; [| exact Hun]); unfold stream_ok; cbn.
      * rewrite u32_small by lia. repeat split; try assumption; lia.
      * repeat split; try assumption; lia.
    + split; [exact Hcat |]. split; [| exact Hun]. unfold stream_ok. cbn.
      repeat split; try assumption; lia.
  - unfold readNextBlock. rewrite Hf.
    destruct (Z.leb_spec (totalBlocks (catalogue_at (_catalogue s) (_currentIndex s)))
                (_currentBlock s)); [| lia].
    cbn [snd]. split; [exact Hcat |]. split; [| exact Hun].
    unfold stream_ok. rewrite Hf. repeat split; try assumption; lia.
Qed.

Lemma reader_sound_readBlock s k r :
  reader_sound s -> reader_sound (snd (readBlock s k r)).
Proof.
  intros H. pose proof (reader_ok_readBlock s k r (proj1 H)) as Hok.
  split; [exact Hok |]. clear Hok.
  destruct H as (_ & Hcat & Hstream & Hun).
  unfold readBlock.
  destruct (_currentFile s) as [f |] eqn:Hf; cbn [snd].
  2:{ auto. }
  assert (Hsame : stream_ok s) by exact Hstream.
  unfold stream_ok in Hstream. rewrite Hf in Hstream.
  destruct (totalBlocks (catalogue_at (_catalogue s) (_currentIndex s)) <=? k); cbn [snd];
    [split; [exact Hcat |]; split; [exact Hsame | exact Hun] |].
  destruct (seek f _) as [f1 |]; cbn [snd];
    [| split; [exact Hcat |]; split; [exact Hsame | exact Hun]].
  destruct (_readAtOffset f1 _ k _ r) as [[ok r1] f']. cbn [snd].
  split; [exact Hcat |]. split; [| exact Hun].
  unfold stream_ok. cbn. exact Hstream.
Qed.

(** X13. The reader invariant: every reader that a program can get to
    from a constructed one (whatever the storage of the object held in
    the places of the catalogue array) by calls of [begin], [end],
    [openImage], [closeImage], [readNextBlock] and [readBlock] (on any
    cards, with any arguments of the C++ types) has a catalogue array
    of [VSENSOR_MAX_IMAGES] slots with at most that many counted, every
    counted entry with a size below 2^32, at most 8388607 blocks, a
    zero checksum and a path of at most 63 characters; an image count
    of 0 when unmounted; with a stream open, it is mounted, the active
    index is that of a counted entry, the cursor is between 0 and the
    block count and the handle is within its file; with none open, the
    active index is the sentinel 255 and the cursor is 0.  Nothing is
    said of the slots that are not counted. *)
Theorem reachable_reader_sound (s : StorageReader) :
  reachable s -> reader_sound s.
Proof.
  induction 1 as [slots Hlen | sd bus s _ IH | bus s _ IH | sd s index Hsd Hidx _ IH
                 | s _ IH | s r _ IH | s k r Hk _ IH].
  - exact (reader_sound_init slots Hlen).
  - apply reader_sound_begin. exact IH.
  - apply reader_sound_end. exact IH.
  - apply reader_sound_openImage; [exact Hsd | lia | exact IH].
  - apply reader_sound_closeImage. exact IH.
  - apply reader_sound_readNextBlock. exact IH.
  - apply reader_sound_readBlock. exact IH.
Qed.

Lemma medium_ok_two_sd : medium_ok MoreExamples.two_sd.
Proof.
  intros path d H. unfold MoreExamples.two_sd in H. cbn [files] in H.
  apply lookup_insert_Some in H as [[_ <-] | [_ H]]; [cbn; lia |].
  apply lookup_singleton_Some in H as [_ <-]. cbn. lia.
Qed.

Lemma reachable_reader_sound_witness :
  reader_sound MoreExamples.stale_reader
  /\ totalBlocks (catalogue_at (_catalogue MoreExamples.stale_reader) 5) = 2863311530.
Proof.
  split; [| reflexivity].
  apply reachable_reader_sound.
  unfold MoreExamples.stale_reader.
  apply reach_openImage; [exact medium_ok_two_sd | lia |].
  apply reach_begin. apply reach_init. reflexivity.
Defined.

(** ** The capture cycle *)

Lemma readNextBlock_frame s r :
  _mounted (snd (readNextBlock s r)) = _mounted s
  /\ _imageCount (snd (readNextBlock s r)) = _imageCount s
  /\ _catalogue (snd (readNextBlock s r)) = _catalogue s
  /\ _currentIndex (snd (readNextBlock s r)) = _currentIndex s.
Proof.
  unfold readNextBlock. destruct (_currentFile s) as [f |]; [| repeat split; reflexivity].
  destruct (_ <=? _); [repeat split; reflexivity |].
  destruct (_readAtOffset f _ _ _ r) as [[[] r1] f']; repeat split; reflexivity.
Qed.

Lemma readBlock_frame s k r :
  _mounted (snd (readBlock s k r)) = _mounted s
  /\ _imageCount (snd (readBlock s k r)) = _imageCount s
  /\ _catalogue (snd (readBlock s k r)) = _catalogue s
  /\ _currentIndex (snd (readBlock s k r)) = _currentIndex s
  /\ _currentBlock (snd (readBlock s k r)) = _currentBlock s.
Proof.
  unfold readBlock. destruct (_currentFile s) as [f |]; [| repeat split; reflexivity].
  destruct (_ <=? _); [repeat split; reflexivity |].
  destruct (seek f _) as [f1 |]; [| repeat split; reflexivity].
  destruct (_readAtOffset f1 _ _ _ r) as [[ok r1] f']; repeat split; reflexivity.
Qed.

Lemma openImage_mounted sd s index :
  _mounted (snd (openImage sd s index)) = _mounted s.
Proof.
  unfold openImage. destruct (negb (_mounted s) || (_imageCount s <=? index));
    [reflexivity |].
  destruct (SD_open sd _); cbn; apply closeImage_mounted.
Qed.

(** The streaming loop ends within [totalBlocks - cursor + 1] calls. *)
Lemma stream_loop_ends (fuel : nat) :
  forall (s : StorageReader) (block : BlockReadResult) (acc : Z),
    reader_inv s ->
    totalBlocks (catalogue_at (_catalogue s) (_currentIndex s)) - _currentBlock s
      < Z.of_nat fuel ->
    (0 < fuel)%nat ->
    exists total block' s',
      Demo.stream_loop fuel s block acc = Some (total, block', s')
      /\ _mounted s' = _mounted s
      /\ reader_inv s'.
Proof.
  induction fuel as [| n IH]; intros s block acc Hinv Hfuel Hpos; [lia |].
  cbn [Demo.stream_loop].
  pose proof (reader_inv_readNextBlock s block Hinv) as Hinv1.
  pose proof (readNextBlock_frame s block) as (Hm & _ & Hcat & Hidx).
  destruct (_currentFile s) as [f |] eqn:Hf.
  2:{ unfold readNextBlock in *. rewrite Hf in *. eauto 8. }
  pose proof (readNextBlock_shape s f block) as Hshape. cbn zeta in Hshape.
  destruct Hinv as ((_ & _ & Hfile) & Hentries & Hstream & _).
  unfold stream_ok in Hstream. rewrite Hf in Hstream.
  destruct Hstream as (_ & _ & Hc).
  pose proof (catalogue_at_ok _ (_currentIndex s) Hentries) as (_ & Ht & _).
  specialize (Hshape Hf (Hfile f Hf) ltac:(lia) ltac:(lia)).
  destruct (readNextBlock s block) as [[ok r1] s1]. cbn [snd] in *.
  destruct ok; [| eauto 8].
  destruct Hshape as (Hiff & Hsucc & _).
  destruct (Hsucc eq_refl) as (_ & _ & _ & _ & _ & Hs1).
  assert (Hcur : _currentBlock s1 = _currentBlock s + 1) by (rewrite Hs1; reflexivity).
  destruct (proj1 Hiff eq_refl) as [Hlt _].
  destruct (IH s1 r1 (u32 (acc + length r1)) Hinv1) as (total & b' & s' & E & Hm' & Hinv');
    [rewrite Hcat, Hidx, Hcur; lia | lia |].
  exists total, b', s'. split; [exact E |]. split; [congruence | exact Hinv'].
Qed.

Lemma begin_file sd bus s :
  _currentFile (snd (begin sd bus s)) = _currentFile s.
Proof.
  unfold begin. destruct (_mounted s); [reflexivity |].
  destruct (negb (mount_ok sd)); [reflexivity |].
  destruct (card_type sd =? CARD_NONE); [reflexivity |].
  pose proof (scanDirectory_frame sd (set_mounted s true)) as (_ & Hf & _).
  destruct (_scanDirectory sd (set_mounted s true)) as [ok s']. exact Hf.
Qed.

Lemma power_ok_mounted bus s s' :
  power_ok bus s -> _mounted s' = _mounted s -> power_ok bus s'.
Proof. unfold power_ok. intros [H1 H2] E. rewrite E. split; assumption. Qed.

Lemma end_facts bus s :
  power_ok bus s ->
  power_ok (fst (end_ bus s)) (snd (end_ bus s))
  /\ _mounted (snd (end_ bus s)) = false
  /\ isImageOpen (snd (end_ bus s)) = false.
Proof.
  intros H. destruct (begin_end_power Examples.empty_sd bus s H) as (_ & Hp & _ & Hm).
  split; [exact Hp |]. split; [exact Hm |].
  unfold isImageOpen, end_.
  destruct (_mounted (closeImage s)); cbn [snd _currentFile]; rewrite closeImage_file;
    apply bool_decide_eq_false; intros [x Hx]; discriminate.
Qed.

(** X14. Power over a capture cycle: started on an unmounted reader
    with the bus off, with enough fuel for the largest block count, the
    cycle always comes to an end.  It never takes the "no images" or the
    "failed to read image info" exit.  It reports a failed
    initialisation exactly when [begin] returns [false], and then leaves
    the rotating index as it was and the reader mounted exactly when the
    card mounted; on every other exit it has advanced the index and
    unmounted the reader.  At the end no stream is open and the bus is
    powered exactly when the reader is mounted: so a card that mounts
    but holds no image leaves the bus powered. *)
Theorem capture_cycle_power
    (fuel : nat) (sd : Medium) (captureIndex : Z) (bus : Bus) (sensor : StorageReader)
    (info : ImageInfo) (block : BlockReadResult) :
  medium_ok sd ->
  reader_inv sensor ->
  _mounted sensor = false ->
  power_ok bus sensor ->
  8388607 < Z.of_nat fuel ->
  exists cy : Demo.Cycle,
    Demo.simulateCaptureCycle fuel sd captureIndex bus sensor info block = Some cy
    /\ Demo.report cy <> Demo.NoImages
    /\ Demo.report cy <> Demo.InfoFailed
    /\ power_ok (Demo.bus_after cy) (Demo.sensor_after cy)
    /\ isImageOpen (Demo.sensor_after cy) = false
    /\ (Demo.report cy = Demo.InitFailed <-> fst (fst (begin sd bus sensor)) = false)
    /\ (Demo.report cy <> Demo.InitFailed ->
          _mounted (Demo.sensor_after cy) = false
          /\ Demo.captureIndex_after cy = u8 (captureIndex + 1))
    /\ (Demo.report cy = Demo.InitFailed ->
          Demo.captureIndex_after cy = captureIndex
          /\ (_mounted (Demo.sensor_after cy) = true
              <-> mount_ok sd = true /\ card_type sd <> CARD_NONE)).
Proof.
  intros Hsd Hinv Hm Hpow Hfuel.
  pose proof (reader_inv_begin sd bus sensor Hinv) as Hinv1.
  destruct (begin_end_power sd bus sensor Hpow) as (Hpow1 & _).
  pose proof (begin_unmounted sd bus sensor Hm (proj1 (proj1 Hinv))) as Hb.
  pose proof (begin_file sd bus sensor) as Hfile1.
  assert (Hclosed : _currentFile sensor = None).
  { destruct Hinv as (_ & _ & Hs & _). unfold stream_ok in Hs.
    destruct (_currentFile sensor); [| reflexivity].
    destruct Hs as (Hmt & _). congruence. }
  rewrite Hclosed in Hfile1.
  unfold Demo.simulateCaptureCycle.
  destruct (begin sd bus sensor) as [[ok bus1] s1]. cbn [fst snd] in *.
  destruct Hb as (_ & Hmounted & Hcount & _).
  destruct ok; cbn [negb].
  2:{ eexists. split; [reflexivity |]. cbn.
      split; [discriminate |]. split; [discriminate |]. split; [exact Hpow1 |].
      split; [unfold isImageOpen; rewrite Hfile1; apply bool_decide_eq_false;
              intros [x Hx]; discriminate |].
      split; [tauto |]. split; [congruence |]. intros _. split; [reflexivity | exact Hmounted]. }
  specialize (Hcount eq_refl). unfold VSENSOR_MAX_IMAGES, imageCount in *.
  destruct (Z.eqb_spec (_imageCount s1) 0) as [| _]; [lia |].
  pose proof (Z.mod_pos_bound captureIndex (_imageCount s1) ltac:(lia)) as Hmod.
  rewrite (u8_small (captureIndex mod _imageCount s1)) by lia.
  set (idx := captureIndex mod _imageCount s1) in *.
  unfold getImageInfo.
  destruct (Z.leb_spec (_imageCount s1) idx); [lia |]. cbn [negb].
  pose proof (reader_inv_openImage sd s1 idx Hsd ltac:(lia) Hinv1) as Hinv2.
  pose proof (openImage_mounted sd s1 idx) as Hm2.
  destruct (openImage sd s1 idx) as [opened s2]. cbn [snd] in *.
  assert (Hpow2 : power_ok bus1 s2) by (apply (power_ok_mounted bus1 s1); assumption).
  destruct opened; cbn [negb].
  2:{ destruct (end_facts bus1 s2 Hpow2) as (Hp & Hmf & Hio).
      destruct (end_ bus1 s2) as [bus3 s3]. cbn [fst snd] in *.
      eexists. split; [reflexivity |]. cbn.
      split; [discriminate |]. split; [discriminate |]. split; [exact Hp |].
      split; [exact Hio |]. split; [split; discriminate |].
      split; [intros _; split; [exact Hmf | reflexivity] | discriminate]. }
  destruct (stream_loop_ends fuel s2 block 0 Hinv2) as (total & b1 & s3 & E & Hm3 & Hinv3).
  { destruct Hinv2 as (_ & Hentries & Hstream & _).
    pose proof (catalogue_at_ok _ (_currentIndex s2) Hentries) as (_ & Ht & _).
    unfold stream_ok in Hstream.
    destruct (_currentFile s2); [lia |].
    destruct Hstream as [_ ->]. lia. }
  { lia. }
  rewrite E.
  set (after := if 1 <? totalBlocks (catalogue_at (_catalogue s1) idx)
                then let '(ok0, b, s4) := readBlock s3 0 b1 in (Some ok0, b, s4)
                else (None, b1, s3)).
  assert (Hm4 : _mounted (snd after) = _mounted s3).
  { unfold after. destruct (1 <? _); [| reflexivity].
    pose proof (readBlock_frame s3 0 b1) as (Hrb & _).
    destruct (readBlock s3 0 b1) as [[ok0 b] s4]. exact Hrb. }
  destruct after as [[reread b2] s4]. cbn [snd] in Hm4.
  assert (Hpow5 : power_ok bus1 (closeImage s4)).
  { apply (power_ok_mounted bus1 s2); [exact Hpow2 |].
    rewrite closeImage_mounted. congruence. }
  destruct (end_facts bus1 (closeImage s4) Hpow5) as (Hp & Hmf & Hio).
  destruct (end_ bus1 (closeImage s4)) as [bus5 s5]. cbn [fst snd] in *.
  eexists. split; [reflexivity |]. cbn.
  split; [discriminate |]. split; [discriminate |]. split; [exact Hp |].
  split; [exact Hio |]. split; [split; discriminate |].
  split; [intros _; split; [exact Hmf | reflexivity] | discriminate].
Qed.

Lemma capture_cycle_power_witness :
  exists cy : Demo.Cycle,
    Demo.simulateCaptureCycle (Z.to_nat 8388608) MoreExamples.bare_sd 7 Examples.bus_off
      StorageReader_new ImageInfo_zero Examples.blank = Some cy
    /\ Demo.report cy = Demo.InitFailed
    /\ spi_active (Demo.bus_after cy) = true.
Proof.
  destruct (capture_cycle_power (Z.to_nat 8388608) MoreExamples.bare_sd 7 Examples.bus_off
              StorageReader_new ImageInfo_zero Examples.blank)
    as (cy & E & _ & _ & Hpow & _ & Hinit & _ & Hfail).
  - intros path d H. cbn in H. rewrite lookup_empty in H. discriminate.
  - exact reader_inv_new.
  - reflexivity.
  - split; reflexivity.
  - lia.
  - exists cy. split; [exact E |].
    assert (R : Demo.report cy = Demo.InitFailed) by (apply Hinit; reflexivity).
    split; [exact R |].
    destruct (Hfail R) as (_ & Hm). destruct Hpow as [Hspi _].
    rewrite Hspi. apply Hm. split; [reflexivity | vm_compute; discriminate].
Defined.

Lemma openImage_succeeds (sd : Medium) (s : StorageReader) (index : Z) (d : FileData) :
  _mounted s = true ->
  index < _imageCount s ->
  files sd !! filename (catalogue_at (_catalogue s) index) = Some d ->
  exists s1, openImage sd s index = (true, s1).
Proof.
  intros Hm Hlt Hd. unfold openImage. rewrite Hm. cbn [negb orb].
  destruct (Z.leb_spec (_imageCount s) index); [lia |].
  assert (Hcat : _catalogue (closeImage s) = _catalogue s)
    by (unfold closeImage; destruct (_currentFile s); reflexivity).
  rewrite Hcat. unfold SD_open. rewrite Hd. eauto.
Qed.

(** The streaming loop of the demo on a file of the catalogued size:
    it adds up what is left of the file from the cursor on. *)
Lemma stream_loop_from_cursor (n : nat) :
  forall (s : StorageReader) (r : BlockReadResult) (f : File) (acc : Z) (fuel : nat),
    _currentFile s = Some f ->
    file_ok f ->
    fsize (fdata f) = fileSize (catalogue_at (_catalogue s) (_currentIndex s)) ->
    fileSize (catalogue_at (_catalogue s) (_currentIndex s))
      <= totalBlocks (catalogue_at (_catalogue s) (_currentIndex s)) * VSENSOR_BLOCK_SIZE
      < fileSize (catalogue_at (_catalogue s) (_currentIndex s)) + VSENSOR_BLOCK_SIZE ->
    0 <= _currentBlock s ->
    Z.of_nat n = totalBlocks (catalogue_at (_catalogue s) (_currentIndex s)) - _currentBlock s ->
    0 <= acc ->
    acc + (fsize (fdata f) - Z.min (_currentBlock s * VSENSOR_BLOCK_SIZE) (fsize (fdata f)))
      < 2 ^ 32 ->
    fsize (fdata f) < 2 ^ 32 ->
    (n < fuel)%nat ->
    exists r' s' f',
      Demo.stream_loop fuel s r acc
      = Some (acc + (fsize (fdata f)
                     - Z.min (_currentBlock s * VSENSOR_BLOCK_SIZE) (fsize (fdata f))),
              r', s')
      /\ _currentFile s' = Some f' /\ fdata f' = fdata f
      /\ _catalogue s' = _catalogue s
      /\ _currentIndex s' = _currentIndex s
      /\ _mounted s' = _mounted s.
Proof.
  unfold VSENSOR_BLOCK_SIZE.
  induction n as [| n IH]; intros s r f acc fuel Hf Hok Hsize Hceil Hc Hn Hacc Hsum H32 Hfuel;
    set (e := catalogue_at (_catalogue s) (_currentIndex s)) in *;
    (destruct fuel as [| fuel]; [lia |]); cbn [Demo.stream_loop].
  - unfold readNextBlock. rewrite Hf. fold e.
    destruct (Z.leb_spec (totalBlocks e) (_currentBlock s)); [| lia].
    exists r, s, f. split; [do 2 f_equal; f_equal; lia |]. repeat split; assumption.
  - pose proof (readNextBlock_shape s f r) as Hshape. cbn zeta in Hshape.
    fold e in Hshape. unfold VSENSOR_BLOCK_SIZE in Hshape.
    specialize (Hshape Hf Hok Hc ltac:(lia)).
    destruct (readNextBlock s r) as [[ok r1] s1].
    destruct Hshape as (Hiff & Hsucc & _).
    assert (E : ok = true) by (apply Hiff; lia).
    subst ok. destruct (Hsucc eq_refl) as (_ & Hlen & _ & _ & _ & Hs1).
    clear Hiff Hsucc.
    set (f1 := {| fdata := fdata f; fpos := _currentBlock s * 512 + length r1 |}) in *.
    rewrite u32_small by lia.
    specialize (IH s1 r1 f1 (acc + length r1) fuel).
    rewrite Hs1 in IH.
    cbn [set_block set_file _catalogue _currentIndex _currentFile _currentBlock
           _mounted f1 fdata] in IH.
    fold e in IH.
    destruct IH as (r' & s' & f' & E & Hf' & Hd' & Hcat' & Hidx' & Hm');
      try assumption; try reflexivity; try lia.
    { unfold file_ok. cbn [f1 fdata fpos]. lia. }
    exists r', s', f'. rewrite <- Hs1 in E. rewrite E.
    split; [do 2 f_equal; f_equal; lia |]. repeat split; assumption.
Qed.

(** X15. A capture cycle end to end: started on an unmounted reader on
    a card that mounts, whose directory holds eligible files, when the
    file picked by the rotating index ([captureIndex] modulo the image
    count, in directory order) opens under its catalogued path with the
    size the directory reports, and that size plus the block size still
    fits 32 bits, then the cycle reports that file's catalogue entry,
    the Fletcher-16 value of its bytes, a byte count equal to its size,
    and a successful re-read of block 0 when the file has more than one
    block; the rotating index has moved on by one (modulo 256). *)
Theorem capture_cycle_streams
    (fuel : nat) (sd : Medium) (captureIndex : Z) (bus : Bus) (sensor : StorageReader)
    (info : ImageInfo) (block : BlockReadResult)
    (entries : list DirEntry) (e : DirEntry) (d : FileData) :
  reader_inv sensor ->
  _mounted sensor = false ->
  mount_ok sd = true ->
  card_type sd <> CARD_NONE ->
  images_dir sd = Some entries ->
  let count :=
    Z.min VSENSOR_MAX_IMAGES (Z.of_nat (List.length (List.filter accepted entries))) in
  0 < count ->
  List.filter accepted entries !! Z.to_nat (captureIndex mod count) = Some e ->
  files sd !! make_filename (name e) = Some d ->
  fsize d = size e ->
  0 <= size e ->
  size e + VSENSOR_BLOCK_SIZE - 1 < 2 ^ 32 ->
  totalBlocks (make_entry e) < Z.of_nat fuel ->
  exists cy : Demo.Cycle,
    Demo.simulateCaptureCycle fuel sd captureIndex bus sensor info block = Some cy
    /\ Demo.report cy
       = Demo.Streamed (make_entry e) (fletcher16 (file_bytes d)) (size e)
           (if Z.ltb 1 (totalBlocks (make_entry e)) then Some true else None)
    /\ Demo.captureIndex_after cy = u8 (captureIndex + 1).
Proof.
  intros Hinv Hm Hok Hcard Hdir count Hcount He Hd Hsize H0 Hfit Hfuel.
  pose proof (begin_catalogue sd bus sensor entries Hm (proj1 (proj1 Hinv)) Hok Hcard Hdir)
    as Hcat. cbn zeta in Hcat. fold count in Hcat.
  pose proof (begin_unmounted sd bus sensor Hm (proj1 (proj1 Hinv))) as Hb.
  destruct (make_entry_blocks e H0 Hfit) as (Hfs & Hce1 & Hce2 & _).
  unfold Demo.simulateCaptureCycle.
  destruct (begin sd bus sensor) as [[ok bus1] s1]. cbn [fst snd] in *.
  destruct Hcat as (Hcnt & Hget).
  destruct Hb as (Hiff & Hmounted & _).
  assert (E : ok = true).
  { apply Hiff. split; [exact Hok |]. split; [exact Hcard |].
    exists entries. split; [exact Hdir |].
    intros Hnil. unfold count in Hcount. rewrite Hnil in Hcount. cbn in Hcount. lia. }
  subst ok. cbn [negb]. rewrite Hcnt.
  destruct (Z.eqb_spec count 0); [lia |].
  pose proof (Z.mod_pos_bound captureIndex count Hcount) as Hmod.
  assert (Hc32 : count <= 32) by (unfold count, VSENSOR_MAX_IMAGES; lia).
  rewrite (u8_small (captureIndex mod count)) by lia.
  set (idx := captureIndex mod count) in *.
  specialize (Hget (Z.to_nat idx) e info He ltac:(unfold VSENSOR_MAX_IMAGES; lia)).
  rewrite Z2Nat.id in Hget by lia.
  rewrite Hget. cbn [negb].
  assert (Hentry : catalogue_at (_catalogue s1) idx = make_entry e).
  { unfold getImageInfo in Hget. unfold imageCount in Hcnt. rewrite Hcnt in Hget.
    destruct (Z.leb_spec count idx); [lia |]. congruence. }
  assert (Hm1 : _mounted s1 = true) by (apply Hmounted; split; assumption).
  assert (Hfile : files sd !! filename (catalogue_at (_catalogue s1) idx) = Some d)
    by (rewrite Hentry; exact Hd).
  unfold imageCount in Hcnt.
  rewrite (computeChecksum_opened sd s1 idx d Hm1 ltac:(lia) Hfile).
  destruct (openImage_succeeds sd s1 idx d Hm1 ltac:(lia) Hfile) as [s2 Hopen].
  rewrite Hopen. cbn [negb].
  destruct (openImage_opened sd s1 s2 idx d Hopen Hfile)
    as (Hf2 & Hi2 & Hc2 & Hcat2 & Hm2 & _).
  assert (Hentry2 : catalogue_at (_catalogue s2) (_currentIndex s2) = make_entry e)
    by (rewrite Hcat2, Hi2; exact Hentry).
  pose proof (stream_loop_from_cursor (Z.to_nat (totalBlocks (make_entry e)))
                s2 block {| fdata := d; fpos := 0 |} 0 fuel) as Hloop.
  rewrite Hentry2, Hc2 in Hloop. cbn [fdata] in Hloop.
  unfold VSENSOR_BLOCK_SIZE in *.
  destruct Hloop as (r' & s3 & f3 & Eloop & Hf3 & Hd3 & Hcat3 & Hidx3 & Hm3);
    try assumption; try lia.
  { unfold file_ok. cbn. lia. }
  rewrite Eloop. replace (0 + (fsize d - Z.min (0 * 512) (fsize d))) with (size e) by lia.
  assert (Hentry3 : catalogue_at (_catalogue s3) (_currentIndex s3) = make_entry e)
    by (rewrite Hcat3, Hidx3; exact Hentry2).
  destruct (Z.ltb_spec 1 (totalBlocks (make_entry e))) as [Hmany | Hfew].
  - pose proof (readBlock_shape s3 f3 0 r') as Hrb. cbn zeta in Hrb.
    rewrite Hentry3, Hd3 in Hrb.
    specialize (Hrb Hf3 ltac:(lia) ltac:(lia)).
    destruct (readBlock s3 0 r') as [[ok0 b] s4].
    destruct Hrb as (Hiff0 & _).
    assert (E0 : ok0 = true).
    { apply Hiff0. unfold VSENSOR_BLOCK_SIZE. lia. }
    subst ok0.
    destruct (end_ bus1 (closeImage s4)) as [bus5 s5].
    eexists. split; [reflexivity |]. split; reflexivity.
  - destruct (end_ bus1 (closeImage s3)) as [bus5 s5].
    eexists. split; [reflexivity |]. split; reflexivity.
Qed.

Lemma capture_cycle_streams_witness :
  exists cy : Demo.Cycle,
    Demo.simulateCaptureCycle 4 MoreExamples.two_sd 5 Examples.bus_off StorageReader_new
      ImageInfo_zero Examples.blank = Some cy
    /\ Demo.report cy
       = Demo.Streamed
           (make_entry {| name := "ramp.jpeg"; isDirectory := false; size := 1030 |})
           (fletcher16 (file_bytes MoreExamples.ramp)) 1030 (Some true).
Proof.
  destruct (capture_cycle_streams 4 MoreExamples.two_sd 5 Examples.bus_off StorageReader_new
              ImageInfo_zero Examples.blank MoreExamples.two_entries
              {| name := "ramp.jpeg"; isDirectory := false; size := 1030 |}
              MoreExamples.ramp)
    as (cy & E & R & _).
  - exact reader_inv_new.
  - reflexivity.
  - reflexivity.
  - vm_compute. discriminate.
  - reflexivity.
  - vm_compute. reflexivity.
  - reflexivity.
  - reflexivity.
  - reflexivity.
  - cbn. lia.
  - vm_compute. reflexivity.
  - vm_compute. reflexivity.
  - exists cy. split; [exact E | exact R].
Defined.

(** ** The display test program *)

(** X16. The start-up screen of the display test: run on an unmounted
    reader, [setup] ends on the mount-failure screen exactly when
    [begin] returns [false], and otherwise on the screen of the first
    image, showing the entry of the first eligible file of the
    directory; the "no images found" screen and the bare image-count
    screen are never the last one.  [setup] leaves the reader and the
    bus as [begin] left them (it never unmounts). *)
Theorem setup_last_screen
    (sd : Medium) (bus : Bus) (storage : StorageReader) (info : ImageInfo) :
  _mounted storage = false ->
  List.length (_catalogue storage) = Z.to_nat VSENSOR_MAX_IMAGES ->
  let '(screen, bus1, storage1) := DisplayTest.setup sd bus storage info in
  (screen = DisplayTest.SdMountFailed <-> fst (fst (begin sd bus storage)) = false)
  /\ (screen <> DisplayTest.SdMountFailed ->
        exists entries e,
          images_dir sd = Some entries
          /\ List.filter accepted entries !! 0%nat = Some e
          /\ screen = DisplayTest.FirstImage (make_entry e))
  /\ screen <> DisplayTest.NoImagesFound
  /\ (forall n, screen <> DisplayTest.SdCardOk n)
  /\ (bus1, storage1) = (snd (fst (begin sd bus storage)), snd (begin sd bus storage)).
Proof.
  intros Hm Hlen.
  pose proof (begin_unmounted sd bus storage Hm Hlen) as Hb.
  pose proof (fun entries => begin_catalogue sd bus storage entries Hm Hlen) as Hcat.
  unfold DisplayTest.setup.
  destruct (begin sd bus storage) as [[ok bus1] s1]. cbn [fst snd] in *.
  destruct Hb as (Hiff & _ & Hcount & _).
  destruct ok; cbn [negb].
  2:{ split; [tauto |]. split; [congruence |]. split; [discriminate |].
      split; [discriminate | reflexivity]. }
  destruct (proj1 Hiff eq_refl) as (Hok & Hcard & entries & Hdir & Hne).
  specialize (Hcount eq_refl).
  destruct (Z.ltb_spec 0 (imageCount s1)); [| lia].
  destruct (Hcat entries Hok Hcard Hdir) as (_ & Hget).
  destruct (List.filter accepted entries) as [| e rest] eqn:Hl; [contradiction |].
  pose proof (Hget 0%nat e info eq_refl eq_refl) as Hg.
  change (Z.of_nat 0) with 0 in Hg. rewrite Hg.
  split; [split; discriminate |].
  split; [intros _; exists entries, e; rewrite Hl; repeat split; assumption |].
  split; [discriminate |]. split; [discriminate | reflexivity].
Qed.

Lemma setup_last_screen_witness :
  fst (fst (DisplayTest.setup MoreExamples.two_sd Examples.bus_off StorageReader_new
              ImageInfo_zero))
  = DisplayTest.FirstImage
      (make_entry {| name := "a.JPG"; isDirectory := false; size := 3 |}).
Proof.
  pose proof (setup_last_screen MoreExamples.two_sd Examples.bus_off StorageReader_new
                ImageInfo_zero eq_refl eq_refl) as H.
  destruct (DisplayTest.setup MoreExamples.two_sd Examples.bus_off StorageReader_new
              ImageInfo_zero) as [[screen b] st] eqn:E.
  destruct H as (_ & _ & _ & _ & _).
  vm_compute in E. injection E as <- _ _. reflexivity.
Defined.

(** ** How the calls compose *)

Lemma closeImage_readNextBlock s r :
  closeImage (snd (readNextBlock s r)) = closeImage s.
Proof.
  unfold readNextBlock. destruct (_currentFile s) as [f |] eqn:Hf; [| reflexivity].
  destruct (_ <=? _); [reflexivity |].
  destruct (_readAtOffset f _ _ _ r) as [[[] r1] f']; cbn [snd];
    unfold closeImage; cbn; rewrite Hf; reflexivity.
Qed.

Lemma closeImage_readBlock s k r :
  closeImage (snd (readBlock s k r)) = closeImage s.
Proof.
  unfold readBlock. destruct (_currentFile s) as [f |] eqn:Hf; [| reflexivity].
  destruct (_ <=? _); [reflexivity |].
  destruct (seek f _) as [f1 |]; [| reflexivity].
  destruct (_readAtOffset f1 _ _ _ r) as [[ok r1] f']; cbn [snd].
  unfold closeImage. cbn. rewrite Hf. reflexivity.
Qed.

(** X17. Reads leave no trace for the next [openImage]: on a mounted
    reader and for a valid index, opening an image after a
    [readNextBlock] or a [readBlock] (whatever it did) returns the same
    value and the same reader as it would have without the read, so
    re-opening always restarts from block 0; for any reader and index
    the return value is the same.  [getImageInfo] and
    [computeChecksum] do not see the read either. *)
Theorem reads_leave_no_trace
    (sd : Medium) (s : StorageReader) (k index : Z) (r : BlockReadResult) (info : ImageInfo) :
  let after_next := snd (readNextBlock s r) in
  let after_block := snd (readBlock s k r) in
  (_mounted s = true -> index < _imageCount s ->
     openImage sd after_next index = openImage sd s index
     /\ openImage sd after_block index = openImage sd s index)
  /\ fst (openImage sd after_next index) = fst (openImage sd s index)
  /\ fst (openImage sd after_block index) = fst (openImage sd s index)
  /\ getImageInfo after_next index info = getImageInfo s index info
  /\ getImageInfo after_block index info = getImageInfo s index info
  /\ computeChecksum sd after_next index = computeChecksum sd s index
  /\ computeChecksum sd after_block index = computeChecksum sd s index.
Proof.
  intros after_next after_block.
  pose proof (readNextBlock_frame s r) as (Hm1 & Hc1 & Hcat1 & _).
  pose proof (readBlock_frame s k r) as (Hm2 & Hc2 & Hcat2 & _).
  pose proof (closeImage_readNextBlock s r) as Hcl1.
  pose proof (closeImage_readBlock s k r) as Hcl2.
  fold after_next in Hm1, Hc1, Hcat1, Hcl1.
  fold after_block in Hm2, Hc2, Hcat2, Hcl2.
  assert (Hopen : forall t, _mounted t = _mounted s -> _imageCount t = _imageCount s ->
                            closeImage t = closeImage s ->
                            (_mounted s = true -> index < _imageCount s ->
                             openImage sd t index = openImage sd s index)
                            /\ fst (openImage sd t index) = fst (openImage sd s index)).
  { intros t Hm Hc Hcl. unfold openImage. rewrite Hm, Hc, Hcl. split.
    - intros M Hlt. rewrite M. cbn [negb orb].
      destruct (Z.leb_spec (_imageCount s) index); [lia | reflexivity].
    - destruct (negb (_mounted s) || (_imageCount s <=? index)); reflexivity. }
  destruct (Hopen after_next Hm1 Hc1 Hcl1) as [Ho1 Hf1].
  destruct (Hopen after_block Hm2 Hc2 Hcl2) as [Ho2 Hf2].
  split; [intros M Hlt; split; [apply Ho1 | apply Ho2]; assumption |].
  split; [exact Hf1 |]. split; [exact Hf2 |].
  unfold getImageInfo, computeChecksum.
  rewrite Hm1, Hc1, Hcat1, Hm2, Hc2, Hcat2. repeat split; reflexivity.
Qed.

Lemma reads_leave_no_trace_witness :
  openImage MoreExamples.two_sd
    (snd (readNextBlock MoreExamples.ramp_reader Examples.blank)) 1
  = openImage MoreExamples.two_sd MoreExamples.ramp_reader 1.
Proof.
  apply (proj1 (reads_leave_no_trace MoreExamples.two_sd MoreExamples.ramp_reader 0 1
                  Examples.blank ImageInfo_zero)); reflexivity.
Defined.

(** X18. Unmounting and mounting again on the same card restores the
    reader: for a reachable-style reader (one satisfying the invariant)
    that is unmounted, when the card mounts and is present, [begin],
    then [end], then [begin] again leaves exactly the reader that the
    first [begin] left, catalogue included, and returns the same
    value. *)
Theorem remount_restores
    (sd : Medium) (bus bus' : Bus) (s : StorageReader) :
  reader_inv s ->
  _mounted s = false ->
  mount_ok sd = true ->
  card_type sd <> CARD_NONE ->
  let '(ok, bus1, s1) := begin sd bus s in
  let '(bus2, s2) := end_ bus1 s1 in
  _mounted s2 = false
  /\ fst (fst (begin sd bus' s2)) = ok
  /\ snd (begin sd bus' s2) = s1.
Proof.
  intros Hinv Hm Hok Hcard.
  pose proof (proj1 (proj1 Hinv)) as Hlen.
  assert (Hclosed : _currentFile s = None).
  { destruct Hinv as (_ & _ & Hs & _). unfold stream_ok in Hs.
    destruct (_currentFile s); [| reflexivity].
    destruct Hs as (Hmt & _). congruence. }
  unfold begin at 1. rewrite Hm, Hok. cbn [negb].
  destruct (Z.eqb_spec (card_type sd) CARD_NONE); [contradiction |].
  assert (Hscan : forall t, _mounted t = true -> _currentFile t = None ->
                    List.length (_catalogue t) = Z.to_nat VSENSOR_MAX_IMAGES ->
                    let '(ok, t1) := _scanDirectory sd t in
                    forall b b', 
                      _mounted (snd (end_ b t1)) = false
                      /\ fst (fst (begin sd b' (snd (end_ b t1)))) = ok
                      /\ snd (begin sd b' (snd (end_ b t1))) = t1).
  { intros t Ht Hft Hlt.
    destruct (images_dir sd) as [entries |] eqn:Hdir.
    - rewrite (scanDirectory_spec sd t entries Hdir Hlt).
      set (acc := take (Z.to_nat VSENSOR_MAX_IMAGES) (List.filter accepted entries)).
      intros b b'. unfold end_, closeImage. cbn. rewrite Hft. cbn. rewrite Ht. cbn.
      split; [reflexivity |].
      unfold begin. cbn. rewrite Hok. cbn [negb].
      destruct (Z.eqb_spec (card_type sd) CARD_NONE); [contradiction |].
      rewrite (scanDirectory_spec sd _ entries Hdir).
      2:{ cbn. rewrite length_app, length_map, length_drop, Hlt.
          pose proof (length_take_le (List.filter accepted entries)
                        (Z.to_nat VSENSOR_MAX_IMAGES)). fold acc in H. lia. }
      cbn. fold acc. split; [reflexivity |].
      rewrite drop_app_length'; [reflexivity |].
      rewrite length_map. reflexivity.
    - unfold _scanDirectory. rewrite Hdir.
      intros b b'. unfold end_, closeImage. cbn. rewrite Hft. cbn. rewrite Ht. cbn.
      split; [reflexivity |].
      unfold begin. cbn. rewrite Hok. cbn [negb].
      destruct (Z.eqb_spec (card_type sd) CARD_NONE); [contradiction |].
      unfold _scanDirectory. rewrite Hdir. cbn. split; reflexivity. }
  specialize (Hscan (set_mounted s true) eq_refl Hclosed Hlen).
  destruct (_scanDirectory sd (set_mounted s true)) as [ok s1].
  specialize (Hscan {| spi_active := true; sd_active := true |} bus').
  destruct (end_ {| spi_active := true; sd_active := true |} s1) as [bus2 s2].
  exact Hscan.
Qed.

Lemma remount_restores_witness :
  snd (begin MoreExamples.two_sd Examples.bus_off
         (snd (end_ MoreExamples.bus_on MoreExamples.two_reader)))
  = MoreExamples.two_reader.
Proof.
  pose proof (remount_restores MoreExamples.two_sd Examples.bus_off Examples.bus_off
                StorageReader_new reader_inv_new eq_refl eq_refl) as H.
  specialize (H ltac:(vm_compute; discriminate)).
  change (begin MoreExamples.two_sd Examples.bus_off StorageReader_new)
    with (true, MoreExamples.bus_on, MoreExamples.two_reader) in H.
  cbn iota in H.
  destruct (end_ MoreExamples.bus_on MoreExamples.two_reader) as [bus2 s2].
  destruct H as (_ & _ & H). exact H.
Defined.
